(** * Lawsparkai backend: data preparation and fine-tuning services

    A shallow embedding of
    - [backend/app/services/data_preparation_service.py]
      (redaction, complexity, pair synthesis, metrics, export),
    - [backend/app/services/fine_tuning_service.py] (the job simulator),
    - [backend/app/api/v1/endpoints/fine_tuning.py] (the cancel endpoint),
    together with the properties the specification states about them.

    Conventions.
    - A Python [str] that is scanned character by character (document
      text, regular-expression subjects) is a [list ascii]; the classes
      [\w], [\d], [\s] and case folding are the ASCII restrictions of
      Python's Unicode ones.  Record fields and dictionary keys are
      [string]s.
    - A Python [float] obtained by true division of integers is a
      rational ([Q]).
    - A [dict] used as a counter is a [gmap string nat]. *)

From Stdlib Require Import List Ascii String ZArith QArith Lia Bool.
From Stdlib Require Import DecimalString.
From stdpp Require Import gmap strings list.

Import ListNotations.
Local Open Scope list_scope.
Local Open Scope nat_scope.

(** Document text: a literal of the source is written [txt "..."]. *)
Definition text := list ascii.
Definition txt (s : string) : text := list_ascii_of_string s.


Fixpoint starts_with (p s : text) : bool :=
  match p, s with
  | [], _ => true
  | x :: p', y :: s' => Ascii.eqb x y && starts_with p' s'
  | _ :: _, [] => false
  end.


(** ** Python string primitives *)
Module Py.

Definition code (c : ascii) : nat := nat_of_ascii c.

Definition between (lo hi : nat) (c : ascii) : bool :=
  (lo <=? code c) && (code c <=? hi).

(** [str.isspace] on one character: TAB..CR, FS..US and SPACE. *)
Definition isspace (c : ascii) : bool :=
  between 9 13 c || between 28 32 c.

Definition isdigit (c : ascii) : bool := between 48 57 c.
Definition isupper (c : ascii) : bool := between 65 90 c.
Definition islower (c : ascii) : bool := between 97 122 c.
Definition isalpha (c : ascii) : bool := isupper c || islower c.

(** [\w]: alphanumeric or underscore. *)
Definition isword (c : ascii) : bool :=
  isalpha c || isdigit c || Ascii.eqb c "_".

Definition swapcase (c : ascii) : ascii :=
  if isupper c then ascii_of_nat (code c + 32)
  else if islower c then ascii_of_nat (code c - 32)
  else c.

(** [s.split()]: maximal runs of non-whitespace characters.
    [cur] is the word being read, in reverse. *)
Fixpoint split_ws_go (cur : text) (s : text) : list text :=
  match s with
  | [] => match cur with [] => [] | _ => [rev cur] end
  | c :: s' =>
      if isspace c
      then match cur with
           | [] => split_ws_go [] s'
           | _ => rev cur :: split_ws_go [] s'
           end
      else split_ws_go (c :: cur) s'
  end.

Definition split_ws (s : text) : list text := split_ws_go [] s.

(** [s.split(sep)] for a non-empty separator: the pieces between the
    non-overlapping occurrences of [sep], scanned left to right; always
    at least one piece.  [skip] counts the characters of an occurrence
    still to be dropped. *)
Fixpoint split_go (sep : text) (cur : text) (skip : nat) (s : text)
  : list text :=
  match s with
  | [] => [rev cur]
  | c :: s' =>
      match skip with
      | S n => split_go sep cur n s'
      | O =>
          if starts_with sep s
          then rev cur :: split_go sep [] (length sep - 1) s'
          else split_go sep (c :: cur) O s'
      end
  end.

Definition split (sep s : text) : list text := split_go sep [] 0 s.

Fixpoint lstrip (s : text) : text :=
  match s with
  | c :: s' => if isspace c then lstrip s' else s
  | [] => []
  end.

(** [s.strip()] *)
Definition strip (s : text) : text := rev (lstrip (rev (lstrip s))).

(** [s[:n]] *)
Definition slice_to (n : nat) (s : text) : text := firstn n s.

(** [str(n)] for an [int]. *)
Definition str_int (z : Z) : string := NilZero.string_of_int (Z.to_int z).

End Py.

(** ** A backtracking matcher for the fragment of [re] the service uses *)
Module Re.

(** One element of a bracketed set. *)
Inductive item :=
| Lit (c : ascii)           (* a literal character *)
| Range (lo hi : ascii)     (* lo-hi *)
| Digit                     (* \d *)
| Space.                    (* \s *)

Inductive regex :=
| Eps                                             (* the empty pattern *)
| OneOf (items : list item)                       (* [...], a literal, \d, \s *)
| Boundary                                        (* \b *)
| Cat (r1 r2 : regex)                             (* r1 r2 *)
| Alt (r1 r2 : regex)                             (* r1|r2 *)
| Opt (r : regex)                                 (* (?:r)? *)
| Rep (items : list item) (lo : nat) (hi : option nat). (* set{lo,hi}, greedy *)

Definition item_has (i : item) (c : ascii) : bool :=
  match i with
  | Lit x => Ascii.eqb x c
  | Range lo hi => Py.between (Py.code lo) (Py.code hi) c
  | Digit => Py.isdigit c
  | Space => Py.isspace c
  end.

Definition set_has (items : list item) (c : ascii) : bool :=
  existsb (fun i => item_has i c) items.

(** Membership under the flags: with [re.IGNORECASE] a character
    matches when either of its cases is in the set. *)
Definition mem (ignorecase : bool) (items : list item) (c : ascii) : bool :=
  set_has items c || (ignorecase && set_has items (Py.swapcase c)).

Definition word_at (o : option ascii) : bool :=
  match o with Some c => Py.isword c | None => false end.

(** [\b] holds between [prev] and the next character when exactly one
    of them is a word character. *)
Definition at_boundary (prev : option ascii) (s : text) : bool :=
  xorb (word_at prev) (word_at (head s)).

Section Matcher.
Variable ignorecase : bool.

(** The result of a successful match: the character before the end
    of the match, and the text after it. *)
Definition cont := option ascii -> text -> option (option ascii * text).

(** Greedy bounded repetition of a set: take one more character when
    allowed, fall back to stopping here when the rest fails. *)
Fixpoint rep (items : list item) (lo : nat) (hi : option nat)
         (prev : option ascii) (s : text) (k : cont)
  : option (option ascii * text) :=
  let stop := if lo =? 0 then k prev s else None in
  match s with
  | [] => stop
  | c :: s' =>
      let more :=
        match hi with
        | Some 0 => false
        | _ => mem ignorecase items c
        end in
      if more
      then match rep items (pred lo) (option_map pred hi) (Some c) s' k with
           | Some r => Some r
           | None => stop
           end
      else stop
  end.

(** Backtracking match of [r] at the current position, then [k]. *)
Fixpoint run (r : regex) (prev : option ascii) (s : text) (k : cont)
  : option (option ascii * text) :=
  match r with
  | Eps => k prev s
  | OneOf items =>
      match s with
      | c :: s' => if mem ignorecase items c then k (Some c) s' else None
      | [] => None
      end
  | Boundary => if at_boundary prev s then k prev s else None
  | Cat r1 r2 => run r1 prev s (fun p s' => run r2 p s' k)
  | Alt r1 r2 =>
      match run r1 prev s k with
      | Some res => Some res
      | None => run r2 prev s k
      end
  | Opt r1 =>
      match run r1 prev s k with
      | Some res => Some res
      | None => k prev s
      end
  | Rep items lo hi => rep items lo hi prev s k
  end.

(** [pattern.match] at one position. *)
Definition match_at (r : regex) (prev : option ascii) (s : text)
  : option (option ascii * text) :=
  run r prev s (fun p rest => Some (p, rest)).

(** [pattern.search]: the leftmost position with a match.  Returns the
    unmatched prefix, the character before the rest, and the rest. *)
Fixpoint search (r : regex) (prev : option ascii) (s : text)
  : option (text * option ascii * text) :=
  match match_at r prev s with
  | Some (p, rest) => Some ([], p, rest)
  | None =>
      match s with
      | [] => None
      | c :: s' =>
          match search r (Some c) s' with
          | Some (pre, p, rest) => Some (c :: pre, p, rest)
          | None => None
          end
      end
  end.

(** [re.sub(r, repl, s)]: every leftmost non-overlapping match is
    replaced by [repl].  After an empty match one character is copied
    before the scan resumes (none of the service's patterns can match
    the empty string).  One unit of fuel is spent per match; [sub] gives
    more than there can be matches. *)
Fixpoint sub_fuel (fuel : nat) (r : regex) (repl : text)
         (prev : option ascii) (s : text) : text :=
  match fuel with
  | O => s
  | S n =>
      match search r prev s with
      | None => s
      | Some (pre, p, rest) =>
          if length pre + length rest <? length s
          then pre ++ repl ++ sub_fuel n r repl p rest
          else match rest with
               | [] => pre ++ repl
               | c :: rest' =>
                   pre ++ repl ++ c :: sub_fuel n r repl (Some c) rest'
               end
      end
  end.

Definition sub (r : regex) (repl : text) (s : text) : text :=
  sub_fuel (S (length s)) r repl None s.

End Matcher.


End Re.

(** * DataPreparationService *)

(** ** Redaction: [sensitive_patterns], [_anonymize_content], [_anonymize_names] *)

Import Re.














(** * The record store and its client ([app/core/database.py])

    Rows are records holding the columns the modelled code reads or
    writes.  Free text is [text]; identifiers and enumeration values are
    [string]s. *)

(** A [datetime], through the two renderings the code uses. *)
Record datetime := { isoformat : text; str_datetime : text }.

Record LegalDocument := {
  title : text;
  content : text;
  document_type : string;
  language : string;
  domains : option (list string);
  is_anonymized : bool
}.

Record PromptResponsePair := {
  prompt : text;
  response : text;
  pair_type : string;
  quality_score : Z;
  is_verified : bool;
  domain : option text;
  difficulty : option text
}.

Record DatasetMetrics := {
  total_documents : nat;
  total_pairs : nat;
  verified_pairs : nat;
  type_distribution : gmap string nat;
  quality_distribution : gmap string nat;
  language_distribution : gmap string nat;
  domain_distribution : gmap string nat;
  average_prompt_length : Q;
  average_response_length : Q;
  average_quality_score : Q;
  verification_rate : Q;
  last_updated : datetime
}.

Record FineTuningJob := {
  status : string;
  progress : Q;
  start_time : option text;
  end_time : option text;
  model_id : option text;
  logs : text
}.

Record TrainingMetrics := {
  tm_id : string;
  job_id : string;
  accuracy : Q;
  relevance : Q;
  readability : Q;
  coherence : Q;
  legal_accuracy : Q;
  simplification_score : Q;
  clause_explanation_score : Q;
  qa_score : Q;
  overall_score : Q;
  training_loss : Q;
  validation_loss : Q;
  learning_rate : Q;
  tm_created_at : datetime
}.

Record ValidationResult := {
  vr_id : string;
  vr_job_id : string;
  query : text;
  expected_response : text;
  actual_response : text;
  accuracy_score : Q;
  relevance_score : Q;
  readability_score : Q;
  test_category : string;
  vr_difficulty : string;
  vr_created_at : datetime
}.

(** The tables, the background tasks of the event loop, and what the
    environment will answer: the outcome of each store call in turn
    ([Some msg]: the call raises), the successive values of
    [datetime.utcnow()] and of [uuid.uuid4()]. *)
Record World := {
  legal_documents : list LegalDocument;
  prompt_response_pairs : list PromptResponsePair;
  dataset_metrics : list DatasetMetrics;
  fine_tuning_jobs : gmap string FineTuningJob;
  training_metrics : list TrainingMetrics;
  validation_results : list ValidationResult;
  tasks : gmap string nat;
  faults : list (option text);
  clock : list datetime;
  uuids : list string
}.

Definition set_dataset_metrics (v : list DatasetMetrics) (w : World) : World :=
  {| legal_documents := legal_documents w;
     prompt_response_pairs := prompt_response_pairs w;
     dataset_metrics := v;
     fine_tuning_jobs := fine_tuning_jobs w;
     training_metrics := training_metrics w;
     validation_results := validation_results w;
     tasks := tasks w; faults := faults w; clock := clock w; uuids := uuids w |}.

Definition set_fine_tuning_jobs (v : gmap string FineTuningJob) (w : World) : World :=
  {| legal_documents := legal_documents w;
     prompt_response_pairs := prompt_response_pairs w;
     dataset_metrics := dataset_metrics w;
     fine_tuning_jobs := v;
     training_metrics := training_metrics w;
     validation_results := validation_results w;
     tasks := tasks w; faults := faults w; clock := clock w; uuids := uuids w |}.

Definition set_training_metrics (v : list TrainingMetrics) (w : World) : World :=
  {| legal_documents := legal_documents w;
     prompt_response_pairs := prompt_response_pairs w;
     dataset_metrics := dataset_metrics w;
     fine_tuning_jobs := fine_tuning_jobs w;
     training_metrics := v;
     validation_results := validation_results w;
     tasks := tasks w; faults := faults w; clock := clock w; uuids := uuids w |}.

Definition set_validation_results (v : list ValidationResult) (w : World) : World :=
  {| legal_documents := legal_documents w;
     prompt_response_pairs := prompt_response_pairs w;
     dataset_metrics := dataset_metrics w;
     fine_tuning_jobs := fine_tuning_jobs w;
     training_metrics := training_metrics w;
     validation_results := v;
     tasks := tasks w; faults := faults w; clock := clock w; uuids := uuids w |}.

Definition set_tasks (v : gmap string nat) (w : World) : World :=
  {| legal_documents := legal_documents w;
     prompt_response_pairs := prompt_response_pairs w;
     dataset_metrics := dataset_metrics w;
     fine_tuning_jobs := fine_tuning_jobs w;
     training_metrics := training_metrics w;
     validation_results := validation_results w;
     tasks := v; faults := faults w; clock := clock w; uuids := uuids w |}.

Definition set_faults (v : list (option text)) (w : World) : World :=
  {| legal_documents := legal_documents w;
     prompt_response_pairs := prompt_response_pairs w;
     dataset_metrics := dataset_metrics w;
     fine_tuning_jobs := fine_tuning_jobs w;
     training_metrics := training_metrics w;
     validation_results := validation_results w;
     tasks := tasks w; faults := v; clock := clock w; uuids := uuids w |}.

Definition set_clock (v : list datetime) (w : World) : World :=
  {| legal_documents := legal_documents w;
     prompt_response_pairs := prompt_response_pairs w;
     dataset_metrics := dataset_metrics w;
     fine_tuning_jobs := fine_tuning_jobs w;
     training_metrics := training_metrics w;
     validation_results := validation_results w;
     tasks := tasks w; faults := faults w; clock := v; uuids := uuids w |}.

Definition set_uuids (v : list string) (w : World) : World :=
  {| legal_documents := legal_documents w;
     prompt_response_pairs := prompt_response_pairs w;
     dataset_metrics := dataset_metrics w;
     fine_tuning_jobs := fine_tuning_jobs w;
     training_metrics := training_metrics w;
     validation_results := validation_results w;
     tasks := tasks w; faults := faults w; clock := clock w; uuids := v |}.

(** ** Exceptions and the monad of store-accessing code *)

Inductive exn :=
| Exception (msg : text)
| ValueError (msg : text)
| HTTPException (status_code : nat) (detail : text).

(** [str(e)] *)
Definition str_exn (e : exn) : text :=
  match e with
  | Exception m | ValueError m | HTTPException _ m => m
  end.

Inductive result (A : Type) :=
| Return (a : A)
| Raise (e : exn).
Arguments Return {A} a.
Arguments Raise {A} e.

Definition M (A : Type) : Type := World -> result A * World.

Definition ret {A} (a : A) : M A := fun w => (Return a, w).
Definition raise {A} (e : exn) : M A := fun w => (Raise e, w).
Definition bind {A B} (m : M A) (f : A -> M B) : M B :=
  fun w => match m w with
           | (Return a, w') => f a w'
           | (Raise e, w') => (Raise e, w')
           end.
Definition gets {A} (f : World -> A) : M A := fun w => (Return (f w), w).
Definition modify (f : World -> World) : M unit := fun w => (Return tt, f w).

(** [try: body except Exception as e: handler(e)] *)
Definition try_except {A} (body : M A) (handler : exn -> M A) : M A :=
  fun w => match body w with
           | (Return a, w') => (Return a, w')
           | (Raise e, w') => handler e w'
           end.

Declare Scope py_scope.
Delimit Scope py_scope with py.
Notation "x <- m ;; k" := (bind m (fun x => k))
  (at level 100, m at next level, k at level 200, right associativity) : py_scope.
Notation "m ;; k" := (bind m (fun _ => k))
  (at level 100, k at level 200, right associativity) : py_scope.
Local Open Scope py_scope.

(** One call of the client: it raises [Exception(what + msg)] when the
    environment says so. *)
Definition store_call (what : string) : M unit :=
  fun w => match faults w with
           | Some msg :: rest =>
               (Raise (Exception (txt what ++ msg)), set_faults rest w)
           | _ => (Return tt, set_faults (tl (faults w)) w)
           end.

(** The next [n] store calls succeed. *)
Definition calls_succeed (n : nat) (w : World) : Prop :=
  Forall (fun f => f = None) (firstn n (faults w)).

Definition epoch : datetime :=
  {| isoformat := txt "1970-01-01T00:00:00"; str_datetime := txt "1970-01-01 00:00:00" |}.

(** [datetime.utcnow()] *)
Definition utcnow : M datetime :=
  fun w => match clock w with
           | [] => (Return epoch, set_clock [] w)
           | t :: rest => (Return t, set_clock rest w)
           end.

(** [str(uuid.uuid4())] *)
Definition uuid4 : M string :=
  fun w => match uuids w with
           | [] => (Return EmptyString, set_uuids [] w)
           | u :: rest => (Return u, set_uuids rest w)
           end.

(** [supabase.select(table)] and [supabase.insert(table, row)] on the
    list-shaped tables. *)
Definition select_all {A} (table : World -> list A) : M (list A) :=
  store_call "Select failed: " ;; gets table.

Definition insert_row {A} (table : World -> list A)
           (set : list A -> World -> World) (row : A) : M unit :=
  store_call "Insert failed: " ;; modify (fun w => set (table w ++ [row]) w).

(** [supabase.select("fine_tuning_jobs", filters={"id": job_id})] *)
Definition select_job (id : string) : M (list FineTuningJob) :=
  store_call "Select failed: " ;;
  gets (fun w => match fine_tuning_jobs w !! id with
                 | Some j => [j]
                 | None => []
                 end).

(** [supabase.update("fine_tuning_jobs", data, {"id": job_id})]: [data]
    is the function setting the given columns. *)
Definition update_job (data : FineTuningJob -> FineTuningJob) (id : string)
  : M unit :=
  store_call "Update failed: " ;;
  modify (fun w => set_fine_tuning_jobs (alter data id (fine_tuning_jobs w)) w).

(** ** Numbers *)

(** [a / b] on integers with [b > 0]: true division. *)
Definition true_div (a b : Z) : Q := a # Z.to_pos b.

(** [x > y] on floats. *)
Definition Qgtb (x y : Q) : bool := negb (Qle_bool x y).

(** ** Complexity: [_assess_complexity] *)

Definition _assess_complexity (content : text) : string :=
  let word_count := length (Py.split_ws content) in
  let sentences := Py.split (txt ".") content in
  let avg_sentence_length :=
    match sentences with
    | [] => 0%Q
    | _ => true_div (Z.of_nat word_count) (Z.of_nat (length sentences))
    end in
  if Qgtb avg_sentence_length 25 || (5000 <? word_count) then "high"
  else if Qgtb avg_sentence_length 15 || (2000 <? word_count) then "medium"
  else "low".

(** The classification as the specification words it, on the two counts:
    the average sentence length is [word_count / sentence_count]. *)
Definition complexity_of_counts (word_count sentence_count : nat) : string :=
  let avg := Qdiv (inject_Z (Z.of_nat word_count)) (inject_Z (Z.of_nat sentence_count)) in
  if Qgtb avg 25 || (5000 <? word_count) then "high"
  else if Qgtb avg 15 || (2000 <? word_count) then "medium"
  else "low".

(** ** Pair synthesis: [_generate_pairs_for_type], [_extract_sample_clauses] *)

Definition nl : ascii := "010"%char.
Definition cr : ascii := "013"%char.
Definition dquote : ascii := "034"%char.

(** One synthesized example (the dictionaries built by the generator);
    [pd_tags] is [None] where the dictionary has no ["tags"] key. *)
Record pair_data := {
  pd_prompt : text;
  pd_response : text;
  pd_quality_score : Z;
  pd_difficulty : string;
  pd_tags : option (list string)
}.

Definition _extract_sample_clauses (content : text) : list text :=
  let paragraphs := Py.split [nl; nl] content in
  let clauses :=
    flat_map (fun para =>
                if (10 <? length (Py.split_ws para)) &&
                   (length (Py.split_ws para) <? 100)
                then [Py.strip para] else [])
             paragraphs in
  firstn 5 clauses.

Definition _generate_pairs_for_type (document : LegalDocument) (pair_type : string)
  : list pair_data :=
  let dt := txt (document_type document) in
  if String.eqb pair_type "summarization" then
    [ {| pd_prompt := txt "Provide a comprehensive summary of this " ++ dt
                      ++ txt ":" ++ [nl; nl]
                      ++ Py.slice_to 1000 (content document) ++ txt "...";
         pd_response := txt "This " ++ dt
                      ++ txt " outlines key legal provisions and obligations...";
         pd_quality_score := 4;
         pd_difficulty := "medium";
         pd_tags := Some ["summary"; document_type document] |};
      {| pd_prompt := txt "Give me a brief overview of this legal document:"
                      ++ [nl; nl]
                      ++ Py.slice_to 500 (content document) ++ txt "...";
         pd_response := txt "Brief overview: This document establishes...";
         pd_quality_score := 3;
         pd_difficulty := "easy";
         pd_tags := Some ["overview"; document_type document] |} ]
  else if String.eqb pair_type "clause_explanation" then
    let clauses := _extract_sample_clauses (content document) in
    map (fun clause =>
           {| pd_prompt := txt "Explain this legal clause in simple terms:"
                           ++ [nl; nl] ++ [dquote] ++ clause ++ [dquote];
              pd_response := txt "This clause means that...";
              pd_quality_score := 4;
              pd_difficulty := "medium";
              pd_tags := Some ["clause_explanation"; document_type document] |})
        (firstn 3 clauses)
  else if String.eqb pair_type "qa" then
    [ {| pd_prompt := txt "What is the main purpose of this " ++ dt ++ txt "?";
         pd_response := txt "The main purpose of this " ++ dt ++ txt " is to...";
         pd_quality_score := 4;
         pd_difficulty := "easy";
         pd_tags := None |};
      {| pd_prompt := txt "What are the key obligations in this " ++ dt ++ txt "?";
         pd_response := txt "The key obligations include...";
         pd_quality_score := 4;
         pd_difficulty := "medium";
         pd_tags := None |};
      {| pd_prompt := txt "What happens if someone violates this " ++ dt ++ txt "?";
         pd_response := txt "If this agreement is violated...";
         pd_quality_score := 3;
         pd_difficulty := "hard";
         pd_tags := None |} ]
  else [].

(** A candidate paragraph as the specification words it: 10 to 99 words. *)
Definition spec_candidate (para : text) : bool :=
  (10 <=? length (Py.split_ws para)) && (length (Py.split_ws para) <=? 99).

(** A candidate paragraph as the code tests it: more than 10 and fewer
    than 100 words. *)
Definition candidate (para : text) : bool :=
  (10 <? length (Py.split_ws para)) && (length (Py.split_ws para) <? 100).

(** ** Metrics: [calculate_dataset_metrics] *)

(** [d[k] = d.get(k, 0) + 1] *)
Definition bump (k : string) (d : gmap string nat) : gmap string nat :=
  <[k := default 0 (d !! k) + 1]> d.

Definition sum_Z (l : list Z) : Z := fold_left Z.add l 0%Z.

Definition calculate_dataset_metrics : M DatasetMetrics :=
  all_documents <- select_all legal_documents ;;
  all_pairs <- select_all prompt_response_pairs ;;
  let total_documents := length all_documents in
  let total_pairs := length all_pairs in
  let verified_pairs := length (List.filter is_verified all_pairs) in
  let type_distribution :=
    fold_left (fun d pair => bump (pair_type pair) d) all_pairs ∅ in
  let quality_distribution :=
    fold_left (fun d pair => bump (Py.str_int (quality_score pair)) d) all_pairs ∅ in
  let language_distribution :=
    fold_left (fun d doc => bump (language doc) d) all_documents ∅ in
  let domain_distribution :=
    fold_left (fun d doc =>
                 match domains doc with
                 | Some ds => fold_left (fun d' domain => bump domain d') ds d
                 | None => d
                 end) all_documents ∅ in
  let mean (xs : list Z) : Q :=
    if total_pairs =? 0 then 0%Q
    else true_div (sum_Z xs) (Z.of_nat total_pairs) in
  let avg_prompt_length :=
    mean (map (fun p => Z.of_nat (length (prompt p))) all_pairs) in
  let avg_response_length :=
    mean (map (fun p => Z.of_nat (length (response p))) all_pairs) in
  let avg_quality := mean (map quality_score all_pairs) in
  now <- utcnow ;;
  let metrics :=
    {| total_documents := total_documents;
       total_pairs := total_pairs;
       verified_pairs := verified_pairs;
       type_distribution := type_distribution;
       quality_distribution := quality_distribution;
       language_distribution := language_distribution;
       domain_distribution := domain_distribution;
       average_prompt_length := avg_prompt_length;
       average_response_length := avg_response_length;
       average_quality_score := avg_quality;
       verification_rate :=
         if 0 <? total_pairs
         then (true_div (Z.of_nat verified_pairs) (Z.of_nat total_pairs) * 100)%Q
         else 0%Q;
       last_updated := now |} in
  insert_row dataset_metrics set_dataset_metrics metrics ;;
  ret metrics.

(** ** Export: [export_dataset] *)

Definition hex_digit (n : nat) : ascii :=
  nth n (txt "0123456789abcdef") "0"%char.

(** [json.dumps] of one character of a string ([ensure_ascii=True]). *)
Definition json_escape (c : ascii) : text :=
  if Ascii.eqb c dquote then ["\"%char; dquote]
  else if Ascii.eqb c "\"%char then txt "\\"
  else if Ascii.eqb c nl then txt "\n"
  else if Ascii.eqb c cr then txt "\r"
  else if Ascii.eqb c "009"%char then txt "\t"
  else if Ascii.eqb c "008"%char then txt "\b"
  else if Ascii.eqb c "012"%char then txt "\f"
  else if Py.between 32 126 c then [c]
  else txt "\u00" ++ [hex_digit (Py.code c / 16); hex_digit (Py.code c mod 16)].

Definition json_str (s : text) : text :=
  [dquote] ++ flat_map json_escape s ++ [dquote].

Definition json_opt_str (o : option text) : text :=
  match o with
  | Some s => json_str s
  | None => txt "null"
  end.

(** [json.dumps(line)] for the six-key dictionary built per pair. *)
Definition json_line (pair : PromptResponsePair) : text :=
  txt "{" ++ json_str (txt "prompt") ++ txt ": " ++ json_str (prompt pair)
  ++ txt ", " ++ json_str (txt "response") ++ txt ": " ++ json_str (response pair)
  ++ txt ", " ++ json_str (txt "type") ++ txt ": " ++ json_str (txt (pair_type pair))
  ++ txt ", " ++ json_str (txt "quality") ++ txt ": " ++ txt (Py.str_int (quality_score pair))
  ++ txt ", " ++ json_str (txt "domain") ++ txt ": " ++ json_opt_str (domain pair)
  ++ txt ", " ++ json_str (txt "difficulty") ++ txt ": " ++ json_opt_str (difficulty pair)
  ++ txt "}".

(** ['\n'.join(lines)] *)
Fixpoint join_lines (lines : list text) : text :=
  match lines with
  | [] => []
  | [l] => l
  | l :: rest => l ++ nl :: join_lines rest
  end.

(** One field as [csv.writer] writes it (excel dialect, minimal
    quoting): quoted when it holds a comma, a quote, CR or LF; quotes
    doubled. *)
Definition csv_special (c : ascii) : bool :=
  Ascii.eqb c ","%char || Ascii.eqb c dquote || Ascii.eqb c cr || Ascii.eqb c nl.

Definition csv_field (s : text) : text :=
  if existsb csv_special s
  then [dquote]
       ++ flat_map (fun c => if Ascii.eqb c dquote then [dquote; dquote] else [c]) s
       ++ [dquote]
  else s.

Fixpoint join_commas (fields : list text) : text :=
  match fields with
  | [] => []
  | [f] => f
  | f :: rest => f ++ ","%char :: join_commas rest
  end.

(** [writer.writerow(row)] *)
Definition writerow (row : list text) : text :=
  join_commas (map csv_field row) ++ [cr; nl].

Definition opt_text (o : option text) : text :=
  match o with Some s => s | None => [] end.

Definition csv_header : list text :=
  [txt "prompt"; txt "response"; txt "type"; txt "quality"; txt "domain";
   txt "difficulty"].

Definition csv_row (pair : PromptResponsePair) : list text :=
  [prompt pair; response pair; txt (pair_type pair);
   txt (Py.str_int (quality_score pair)); opt_text (domain pair);
   opt_text (difficulty pair)].

Definition export_dataset (format : string) (pair_types : option (list string))
           (min_quality : Z) (verified_only : bool) : M text :=
  all_pairs <- select_all prompt_response_pairs ;;
  let filtered_pairs := all_pairs in
  let filtered_pairs :=
    match pair_types with
    | Some (t :: ts) =>
        List.filter (fun p => bool_decide (pair_type p ∈ t :: ts)) filtered_pairs
    | _ => filtered_pairs
    end in
  let filtered_pairs :=
    if (min_quality =? 0)%Z then filtered_pairs
    else List.filter (fun p => (min_quality <=? quality_score p)%Z) filtered_pairs in
  let filtered_pairs :=
    if verified_only then List.filter is_verified filtered_pairs
    else filtered_pairs in
  if String.eqb format "jsonl" then
    ret (join_lines (map json_line filtered_pairs))
  else if String.eqb format "csv" then
    ret (writerow csv_header ++ flat_map (fun p => writerow (csv_row p)) filtered_pairs)
  else raise (ValueError (txt "Unsupported format: " ++ txt format)).

(** * FineTuningService and the cancel endpoint *)

Definition with_status (v : string) (j : FineTuningJob) : FineTuningJob :=
  {| status := v; progress := progress j; start_time := start_time j;
     end_time := end_time j; model_id := model_id j; logs := logs j |}.

Definition with_progress (v : Q) (j : FineTuningJob) : FineTuningJob :=
  {| status := status j; progress := v; start_time := start_time j;
     end_time := end_time j; model_id := model_id j; logs := logs j |}.

Definition with_start_time (v : option text) (j : FineTuningJob) : FineTuningJob :=
  {| status := status j; progress := progress j; start_time := v;
     end_time := end_time j; model_id := model_id j; logs := logs j |}.

Definition with_end_time (v : option text) (j : FineTuningJob) : FineTuningJob :=
  {| status := status j; progress := progress j; start_time := start_time j;
     end_time := v; model_id := model_id j; logs := logs j |}.

Definition with_model_id (v : option text) (j : FineTuningJob) : FineTuningJob :=
  {| status := status j; progress := progress j; start_time := start_time j;
     end_time := end_time j; model_id := v; logs := logs j |}.

Definition with_logs (v : text) (j : FineTuningJob) : FineTuningJob :=
  {| status := status j; progress := progress j; start_time := start_time j;
     end_time := end_time j; model_id := model_id j; logs := v |}.

(** ** Coroutines

    The client's coroutines never suspend (they make blocking calls), so
    a task gives up control only at [await asyncio.sleep(...)].  A
    coroutine is the list of its atomic segments, one suspension between
    neighbours. *)
Definition coroutine := list (M unit).

Definition atomic (m : M unit) : coroutine := [m].

(** [await asyncio.sleep(_)] *)
Definition sleep : coroutine := [ret tt; ret tt].

(** [a] then [b]: the last segment of [a] runs on into the first of [b]. *)
Fixpoint then_co (a b : coroutine) : coroutine :=
  match a with
  | [] => b
  | [m] => match b with
           | [] => [m]
           | n :: b' => (m ;; n) :: b'
           end
  | m :: a' => m :: then_co a' b
  end.

Definition for_each {A} (xs : list A) (body : A -> coroutine) : coroutine :=
  fold_right (fun x rest => then_co (body x) rest) (atomic (ret tt)) xs.

Definition enumerate {A} (xs : list A) : list (nat * A) :=
  combine (seq 0 (length xs)) xs.

(** [asyncio.create_task(self._run_training_process(job_id, supabase))] *)
Definition create_task (job_id : string) : M unit :=
  modify (fun w => set_tasks (<[job_id := 0]> (tasks w)) w).

Definition training_stages : list text :=
  [ txt "Preparing training data...";
    txt "Initializing model...";
    txt "Training epoch 1/3...";
    txt "Training epoch 2/3...";
    txt "Training epoch 3/3...";
    txt "Evaluating model performance...";
    txt "Running validation tests...";
    txt "Finalizing model..." ].

(** [jobs[0]["logs"] if jobs else ""] *)
Definition current_logs_of (jobs : list FineTuningJob) : text :=
  match jobs with
  | j :: _ => logs j
  | [] => []
  end.

Definition start_training (job_id : string) : M unit :=
  try_except
    (jobs <- select_job job_id ;;
     match jobs with
     | [] => raise (ValueError (txt "Job " ++ txt job_id ++ txt " not found"))
     | _ => ret tt
     end ;;
     now <- utcnow ;;
     update_job (fun j => with_start_time (Some (isoformat now))
                            (with_status "training" j)) job_id ;;
     create_task job_id)
    (fun e =>
       update_job (fun j => with_logs (txt "Training failed: " ++ str_exn e)
                              (with_status "failed" j)) job_id ;;
       raise e).

Definition Qmin (x y : Q) : Q := if Qle_bool x y then x else y.

Section Hash.
(** The interpreter's [hash] on strings. *)
Variable hash : string -> Z.

(** [_evaluate_model], after its simulated delay. *)
Definition _evaluate_model (job_id : string) : M TrainingMetrics :=
  let base_score := (0.75 + true_div (hash job_id mod 20) 100)%Q in
  id <- uuid4 ;;
  created_at <- utcnow ;;
  let metrics :=
    {| tm_id := id;
       job_id := job_id;
       accuracy := Qmin 0.95 (base_score + 0.05);
       relevance := Qmin 0.95 (base_score + 0.03);
       readability := Qmin 0.95 (base_score + 0.08);
       coherence := Qmin 0.95 (base_score + 0.02);
       legal_accuracy := Qmin 0.95 (base_score + 0.01);
       simplification_score := Qmin 0.95 (base_score + 0.06);
       clause_explanation_score := Qmin 0.95 (base_score + 0.04);
       qa_score := Qmin 0.95 (base_score + 0.07);
       overall_score := base_score;
       training_loss := 0.15;
       validation_loss := 0.18;
       learning_rate := 0.001;
       tm_created_at := created_at |} in
  insert_row training_metrics set_training_metrics metrics ;;
  ret metrics.

Record test_query := {
  tq_query : string;
  tq_expected : text;
  tq_category : string;
  tq_difficulty : string
}.

Definition test_queries : list test_query :=
  [ {| tq_query := "What does 'liquidated damages' mean in a contract?";
       tq_expected := txt "Liquidated damages are a predetermined amount of money that parties agree will be paid if one party breaches the contract...";
       tq_category := "clause_explanation";
       tq_difficulty := "medium" |};
    {| tq_query := "Explain this clause in simple terms: 'Time is of the essence'";
       tq_expected := txt "This clause means that meeting deadlines is extremely important and required...";
       tq_category := "simplification";
       tq_difficulty := "easy" |};
    {| tq_query := "What should I know about non-compete agreements?";
       tq_expected := txt "Non-compete agreements prevent you from working for competitors or starting a competing business...";
       tq_category := "qa";
       tq_difficulty := "medium" |} ].

Definition _run_validation_tests (job_id : string) : coroutine :=
  for_each test_queries (fun test =>
    then_co sleep
      (atomic
         (let actual_response := txt "Generated response for: " ++ txt (tq_query test) in
          let base_accuracy := (0.8 + true_div (hash (tq_query test) mod 15) 100)%Q in
          id <- uuid4 ;;
          created_at <- utcnow ;;
          insert_row validation_results set_validation_results
            {| vr_id := id;
               vr_job_id := job_id;
               query := txt (tq_query test);
               expected_response := tq_expected test;
               actual_response := actual_response;
               accuracy_score := base_accuracy;
               relevance_score := Qmin 0.95 (base_accuracy + 0.05);
               readability_score := Qmin 0.95 (base_accuracy + 0.08);
               test_category := tq_category test;
               vr_difficulty := tq_difficulty test;
               vr_created_at := created_at |}))).

(** A log line [f"\n{datetime.utcnow()}: {what}"]. *)
Definition log_line (now : datetime) (what : text) : text :=
  nl :: str_datetime now ++ txt ": " ++ what.

(** The [try] block of [_run_training_process]. *)
Definition training_body (job_id : string) : coroutine :=
  then_co
    (for_each (enumerate training_stages) (fun '(i, stage) =>
       then_co
         (atomic
            (let progress := (true_div (Z.of_nat i) 8 * 80)%Q in
             jobs <- select_job job_id ;;
             let current_logs := current_logs_of jobs in
             now <- utcnow ;;
             update_job (fun j => with_logs (current_logs ++ log_line now stage)
                                    (with_progress progress j)) job_id))
         sleep))
  (then_co
    (atomic (update_job (fun j => with_progress 80 (with_status "evaluating" j)) job_id))
  (then_co sleep
  (then_co (atomic (_evaluate_model job_id ;; ret tt))
  (then_co (_run_validation_tests job_id)
    (atomic
       (jobs <- select_job job_id ;;
        let current_logs := current_logs_of jobs in
        end_now <- utcnow ;;
        log_now <- utcnow ;;
        update_job
          (fun j =>
             with_logs (current_logs ++ log_line log_now (txt "Training completed successfully"))
               (with_model_id (Some (txt "legal-model-" ++ firstn 8 (txt job_id)))
                  (with_end_time (Some (isoformat end_now))
                     (with_progress 100 (with_status "completed" j)))))
          job_id)))))).

(** The [except Exception as e] block of [_run_training_process]. *)
Definition training_except (job_id : string) (e : exn) : M unit :=
  jobs <- select_job job_id ;;
  let current_logs := current_logs_of jobs in
  end_now <- utcnow ;;
  log_now <- utcnow ;;
  update_job
    (fun j =>
       with_logs (current_logs ++ log_line log_now (txt "Training failed: " ++ str_exn e))
         (with_end_time (Some (isoformat end_now)) (with_status "failed" j)))
    job_id.

(** ** The cancel endpoint ([cancel_fine_tuning_job]) *)
Definition cancel_fine_tuning_job (job_id : string) (username : text) : M text :=
  jobs <- select_job job_id ;;
  match jobs with
  | [] => raise (HTTPException 404 (txt "Fine-tuning job not found"))
  | job :: _ =>
      if negb (bool_decide (status job ∈ ["preparing"; "training"]))
      then raise (HTTPException 400 (txt "Job cannot be cancelled in current status"))
      else
        end_now <- utcnow ;;
        log_now <- utcnow ;;
        update_job
          (fun j =>
             with_logs (logs job ++ nl :: txt "Job cancelled by admin " ++ username
                                  ++ txt " at " ++ str_datetime log_now)
               (with_end_time (Some (isoformat end_now)) (with_status "failed" j)))
          job_id ;;
        ret (txt "Job cancelled successfully")
  end.

(** ** The event loop

    [tasks w !! job_id] counts the segments of the job's training task
    already run.  [Tick] resumes the task for one segment; an exception
    raised in it enters the [except] block and ends the task (an
    exception raised by the block itself is lost with the task).
    [Cancel] is one request to the cancel endpoint. *)
Inductive event :=
| Tick (job_id : string)
| Cancel (job_id : string) (username : text).


Definition tick (job_id : string) (w : World) : World :=
  match tasks w !! job_id with
  | None => w
  | Some pc =>
      match nth_error (training_body job_id) pc with
      | None => w
      | Some segment =>
          match segment w with
          | (Return _, w') => set_tasks (<[job_id := S pc]> (tasks w')) w'
          | (Raise e, w') =>
              let w'' := snd (training_except job_id e w') in
              set_tasks (<[job_id := length (training_body job_id)]> (tasks w'')) w''
          end
      end
  end.

Definition step (ev : event) (w : World) : World :=
  match ev with
  | Tick job_id => tick job_id w
  | Cancel job_id username => snd (cancel_fine_tuning_job job_id username w)
  end.

Definition run_events (evs : list event) (w : World) : World :=
  fold_left (fun w ev => step ev w) evs w.


End Hash.



(** * Definitions used to state the properties *)

(** ** Static analysis of patterns *)

Definition all_ascii : list ascii := map ascii_of_nat (seq 0 256).

(** Every character the set accepts under the flag satisfies [q]. *)
Definition set_within (ignorecase : bool) (q : ascii -> bool) (items : list item)
  : bool :=
  forallb (fun c => implb (mem ignorecase items c) (q c)) all_ascii.

(** Every set of the pattern lies within [q]. *)
Fixpoint sets_within (ignorecase : bool) (q : ascii -> bool) (r : regex) : bool :=
  match r with
  | Eps | Boundary => true
  | OneOf items | Rep items _ _ => set_within ignorecase q items
  | Cat r1 r2 | Alt r1 r2 =>
      sets_within ignorecase q r1 && sets_within ignorecase q r2
  | Opt r1 => sets_within ignorecase q r1
  end.

(** Every match of the pattern holds a character satisfying [q]. *)
Fixpoint must_have (ignorecase : bool) (q : ascii -> bool) (r : regex) : bool :=
  match r with
  | Eps | Boundary | Opt _ => false
  | OneOf items => set_within ignorecase q items
  | Rep items lo _ => (0 <? lo) && set_within ignorecase q items
  | Cat r1 r2 => must_have ignorecase q r1 || must_have ignorecase q r2
  | Alt r1 r2 => must_have ignorecase q r1 && must_have ignorecase q r2
  end.

(** ** Redaction tokens *)








(** ** Export *)

(** The selection of [export_dataset] as one predicate: the three
    filters, each switched off by a falsy argument. *)
Definition selected (pair_types : option (list string)) (min_quality : Z)
           (verified_only : bool) (p : PromptResponsePair) : bool :=
  match pair_types with
  | Some (t :: ts) => bool_decide (pair_type p ∈ t :: ts)
  | _ => true
  end
  && ((min_quality =? 0)%Z || (min_quality <=? quality_score p)%Z)
  && (negb verified_only || is_verified p).

(** The selection as the specification words it. *)
Definition spec_selected (pair_types : option (list string)) (min_quality : Z)
           (verified_only : bool) (p : PromptResponsePair) : bool :=
  match pair_types with
  | Some l => bool_decide (pair_type p ∈ l)
  | None => true
  end
  && (min_quality <=? quality_score p)%Z
  && (negb verified_only || is_verified p).

(** ** Fine-tuning *)




(** ** Sample data *)

Definition empty_world : World :=
  {| legal_documents := []; prompt_response_pairs := []; dataset_metrics := [];
     fine_tuning_jobs := ∅; training_metrics := []; validation_results := [];
     tasks := ∅; faults := []; clock := []; uuids := [] |}.

Definition set_prompt_response_pairs (v : list PromptResponsePair) (w : World)
  : World :=
  {| legal_documents := legal_documents w;
     prompt_response_pairs := v;
     dataset_metrics := dataset_metrics w;
     fine_tuning_jobs := fine_tuning_jobs w;
     training_metrics := training_metrics w;
     validation_results := validation_results w;
     tasks := tasks w; faults := faults w; clock := clock w; uuids := uuids w |}.

Definition sample_pair (type : string) (q : Z) (verified : bool)
  : PromptResponsePair :=
  {| prompt := txt "What is the main purpose of this contract?";
     response := txt "The main purpose of this contract is to...";
     pair_type := type;
     quality_score := q;
     is_verified := verified;
     domain := Some (txt "contracts");
     difficulty := Some (txt "easy") |}.

(** Four stored pairs with quality scores 1, 3, 3, 5. *)
Definition four_pairs_world : World :=
  set_prompt_response_pairs
    [sample_pair "qa" 1 false; sample_pair "qa" 3 true;
     sample_pair "summarization" 3 false; sample_pair "qa" 5 true]
    empty_world.

(** A stand-in for the interpreter's string hash, for the examples. *)
Definition sample_hash (s : string) : Z := Z.of_nat (String.length s) * 7919.



Definition fresh_job : FineTuningJob :=
  {| status := "preparing"; progress := 0; start_time := None;
     end_time := None; model_id := None; logs := [] |}.

(** A store holding one job, ["job-1"]. *)
Definition one_job_world (job : FineTuningJob) : World :=
  set_fine_tuning_jobs {[ "job-1" := job ]} empty_world.

(** The world just after [create_fine_tuning_job]: the job is in
    [training] and its task is scheduled. *)
Definition started_world : World :=
  snd (start_training "job-1" (one_job_world fresh_job)).




(** ** Properties of store-accessing code *)

(** The statuses the cancel endpoint accepts. *)
Definition cancellable (st : string) : bool :=
  bool_decide (st ∈ ["preparing"; "training"]).

(** An action that leaves the task table and the row of job [id] as
    they are. *)
Definition frames (id : string) {A} (m : M A) : Prop :=
  forall w,
    tasks (snd (m w)) = tasks w /\
    fine_tuning_jobs (snd (m w)) !! id = fine_tuning_jobs w !! id.



(** An action after which the logs of job [id], if the job is stored,
    start with its logs before. *)
Definition appends (id : string) {A} (m : M A) : Prop :=
  forall w j,
    fine_tuning_jobs w !! id = Some j ->
    exists j',
      fine_tuning_jobs (snd (m w)) !! id = Some j' /\
      exists suffix, logs j' = logs j ++ suffix.

(** An action that, run where [cur] is the stored log text of job
    [id'], leaves the logs of job [id] extended. *)
Definition logs_writer (id id' : string) (cur : text) {A} (m : M A) : Prop :=
  forall w j,
    (forall j0, fine_tuning_jobs w !! id' = Some j0 -> cur = logs j0) ->
    fine_tuning_jobs w !! id = Some j ->
    exists j',
      fine_tuning_jobs (snd (m w)) !! id = Some j' /\
      exists suffix, logs j' = logs j ++ suffix.

(** * Properties *)

(** ** Texts *)





Lemma all_ascii_complete (c : ascii) : List.In c all_ascii.
Proof.
  unfold all_ascii. apply in_map_iff. exists (nat_of_ascii c). split.
  - apply ascii_nat_embedding.
  - apply in_seq. pose proof (nat_ascii_bounded c). lia.
Qed.

Lemma set_within_mem ic q items c :
  set_within ic q items = true -> mem ic items c = true -> q c = true.
Proof.
  unfold set_within. rewrite forallb_forall. intros H Hm.
  specialize (H c (all_ascii_complete c)). now rewrite Hm in H.
Qed.

(** ** The matcher *)

Section MatcherFacts.
Variable ic : bool.
Variables qa qr : ascii -> bool.

(** What a successful run consumed: a prefix [m] of the subject made of
    characters of the pattern's sets. *)
Lemma rep_sound items :
  forall s lo hi prev k res,
    rep ic items lo hi prev s k = Some res ->
    exists m p rest,
      s = m ++ rest /\ k p rest = Some res /\
      Forall (fun c => mem ic items c = true) m /\ lo <= length m.
Proof.
  induction s as [|c s IH]; intros lo hi prev k res H; simpl in H.
  - destruct (Nat.eqb_spec lo 0) as [->|]; [|discriminate].
    exists [], prev, []. repeat split; auto.
  - assert (Hstop : (if lo =? 0 then k prev (c :: s) else None) = Some res ->
                    exists m p rest,
                      c :: s = m ++ rest /\ k p rest = Some res /\
                      Forall (fun c => mem ic items c = true) m /\ lo <= length m).
    { destruct (Nat.eqb_spec lo 0) as [->|]; [|discriminate].
      intros Hk. exists [], prev, (c :: s). repeat split; auto. }
    destruct (match hi with Some 0 => false | _ => mem ic items c end) eqn:Hmore;
      [|auto].
    destruct (rep ic items (pred lo) (option_map pred hi) (Some c) s k) eqn:Hrec;
      [|auto].
    injection H as ->.
    destruct (IH _ _ _ _ _ Hrec) as (m & p & rest & -> & Hk & Hall & Hlen).
    exists (c :: m), p, rest. repeat split; auto.
    + constructor; [|exact Hall].
      destruct hi as [[|h]|]; [discriminate | exact Hmore | exact Hmore].
    + simpl. lia.
Qed.

Lemma run_sound r :
  forall prev s k res,
    run ic r prev s k = Some res ->
    exists m p rest,
      s = m ++ rest /\ k p rest = Some res /\
      (sets_within ic qa r = true -> Forall (fun c => qa c = true) m) /\
      (must_have ic qr r = true -> Exists (fun c => qr c = true) m).
Proof.
  induction r as [|items| |r1 IH1 r2 IH2|r1 IH1 r2 IH2|r1 IH1|items lo hi];
    intros prev s k res H; simpl in H.
  - exists [], prev, s. repeat split; auto. discriminate.
  - destruct s as [|c s]; [discriminate|].
    destruct (mem ic items c) eqn:Hm; [|discriminate].
    exists [c], (Some c), s. repeat split; auto; simpl; intros Hq.
    + constructor; [|constructor]. eapply set_within_mem; eauto.
    + constructor. eapply set_within_mem; eauto.
  - destruct (at_boundary prev s); [|discriminate].
    exists [], prev, s. repeat split; auto. discriminate.
  - destruct (IH1 _ _ _ _ H) as (m1 & p1 & rest1 & -> & H2 & Ha1 & Hr1).
    destruct (IH2 _ _ _ _ H2) as (m2 & p2 & rest2 & -> & Hk & Ha2 & Hr2).
    exists (m1 ++ m2), p2, rest2. rewrite <- app_assoc. repeat split; auto; simpl.
    + rewrite andb_true_iff. intros [? ?]. apply Forall_app; auto.
    + rewrite orb_true_iff. intros [?|?]; apply Exists_app; auto.
  - destruct (run ic r1 prev s k) eqn:H1.
    + injection H as ->.
      destruct (IH1 _ _ _ _ H1) as (m & p & rest & -> & Hk & Ha & Hr).
      exists m, p, rest. repeat split; auto; simpl.
      * rewrite andb_true_iff. intros [? ?]; auto.
      * rewrite andb_true_iff. intros [? ?]; auto.
    + destruct (IH2 _ _ _ _ H) as (m & p & rest & -> & Hk & Ha & Hr).
      exists m, p, rest. repeat split; auto; simpl.
      * rewrite andb_true_iff. intros [? ?]; auto.
      * rewrite andb_true_iff. intros [? ?]; auto.
  - destruct (run ic r1 prev s k) eqn:H1.
    + injection H as ->.
      destruct (IH1 _ _ _ _ H1) as (m & p & rest & -> & Hk & Ha & Hr).
      exists m, p, rest. repeat split; auto. discriminate.
    + exists [], prev, s. repeat split; auto. discriminate.
  - destruct (rep_sound _ _ _ _ _ _ _ H) as (m & p & rest & -> & Hk & Hall & Hlen).
    exists m, p, rest. repeat split; auto; simpl.
    + intros Hq. eapply Forall_impl; [exact Hall|].
      intros c Hc. eapply set_within_mem; eauto.
    + rewrite andb_true_iff. intros [Hlo Hq]. apply Nat.ltb_lt in Hlo.
      destruct m as [|c m]; [simpl in Hlen; lia|].
      constructor. inversion Hall; subst. eapply set_within_mem; eauto.
Qed.

Lemma match_at_sound r prev s p rest :
  match_at ic r prev s = Some (p, rest) ->
  exists m,
    s = m ++ rest /\
    (sets_within ic qa r = true -> Forall (fun c => qa c = true) m) /\
    (must_have ic qr r = true -> Exists (fun c => qr c = true) m).
Proof.
  unfold match_at. intros H.
  destruct (run_sound _ _ _ _ _ H) as (m & p' & rest' & -> & Hk & Ha & Hr).
  injection Hk as -> ->. eauto.
Qed.

Lemma search_sound r :
  forall s prev pre p rest,
    search ic r prev s = Some (pre, p, rest) ->
    exists m,
      s = pre ++ m ++ rest /\
      (sets_within ic qa r = true -> Forall (fun c => qa c = true) m) /\
      (must_have ic qr r = true -> Exists (fun c => qr c = true) m).
Proof.
  induction s as [|c s IH]; intros prev pre p rest H; simpl in H.
  - destruct (match_at ic r prev []) as [[p' rest']|] eqn:Hm; [|discriminate].
    injection H as <- <- <-. apply match_at_sound in Hm. exact Hm.
  - destruct (match_at ic r prev (c :: s)) as [[p' rest']|] eqn:Hm.
    + injection H as <- <- <-. apply match_at_sound in Hm. exact Hm.
    + destruct (search ic r (Some c) s) as [[[pre' p'] rest']|] eqn:Hs;
        [|discriminate].
      injection H as <- <- <-.
      destruct (IH _ _ _ _ Hs) as (m & -> & Ha & Hr). exists m. auto.
Qed.

End MatcherFacts.

(** ** Tokens and matches do not overlap *)



(** ** Substitution *)

Section SubFacts.
Variable ic : bool.
Variable r : regex.
Variable repl : text.

Lemma search_length s prev pre p rest :
  search ic r prev s = Some (pre, p, rest) ->
  length pre + length rest <= length s.
Proof.
  intros H.
  destruct (search_sound ic (fun _ => true) (fun _ => true) r _ _ _ _ _ H)
    as (m & -> & _).
  rewrite !length_app. lia.
Qed.

(** Fuel beyond the length of the subject changes nothing: [sub] is
    total. *)
Lemma sub_fuel_enough :
  forall n s prev,
    length s < n ->
    sub_fuel ic (S n) r repl prev s = sub_fuel ic n r repl prev s.
Proof.
  induction n as [|n IH]; intros s prev Hlen; [lia|].
  change (sub_fuel ic (S (S n)) r repl prev s)
    with (match search ic r prev s with
          | None => s
          | Some (pre, p, rest) =>
              if length pre + length rest <? length s
              then pre ++ repl ++ sub_fuel ic (S n) r repl p rest
              else match rest with
                   | [] => pre ++ repl
                   | c :: rest' =>
                       pre ++ repl ++ c :: sub_fuel ic (S n) r repl (Some c) rest'
                   end
          end).
  change (sub_fuel ic (S n) r repl prev s)
    with (match search ic r prev s with
          | None => s
          | Some (pre, p, rest) =>
              if length pre + length rest <? length s
              then pre ++ repl ++ sub_fuel ic n r repl p rest
              else match rest with
                   | [] => pre ++ repl
                   | c :: rest' =>
                       pre ++ repl ++ c :: sub_fuel ic n r repl (Some c) rest'
                   end
          end).
  destruct (search ic r prev s) as [[[pre p] rest]|] eqn:Hs; [|reflexivity].
  pose proof (search_length _ _ _ _ _ Hs) as Hle.
  destruct (Nat.ltb_spec (length pre + length rest) (length s)).
  - rewrite IH; [reflexivity | lia].
  - destruct rest as [|c rest']; [reflexivity|].
    rewrite IH; [reflexivity | simpl in *; lia].
Qed.


(** Without a match the text is returned as it is. *)
Lemma sub_no_match s :
  search ic r None s = None -> sub ic r repl s = s.
Proof. unfold sub. simpl. now intros ->. Qed.

(** A pattern that must consume a character never matches the empty
    string, so the empty-match branch of [sub_fuel] is not taken for it. *)
Lemma search_consumes q s prev pre p rest :
  must_have ic q r = true ->
  search ic r prev s = Some (pre, p, rest) ->
  length pre + length rest < length s.
Proof.
  intros Hmust H.
  destruct (search_sound ic (fun _ => true) q r _ _ _ _ _ H) as (m & -> & _ & Hr).
  rewrite !length_app. destruct (Hr Hmust); simpl; lia.
Qed.



End SubFacts.

(** ** Redaction *)














(** ** Complexity *)

Lemma split_go_nonempty sep :
  forall s cur skip, Py.split_go sep cur skip s <> [].
Proof.
  induction s as [|c s IH]; intros cur skip; simpl; [discriminate|].
  destruct skip; [|apply IH].
  destruct (starts_with sep (c :: s)); [discriminate | apply IH].
Qed.

Lemma Qgtb_true_div (w s z : Z) :
  (0 < s)%Z ->
  Qgtb (true_div w s) (inject_Z z) = (z * s <? w)%Z.
Proof.
  intros Hs. unfold Qgtb, Qle_bool, true_div, inject_Z. simpl.
  rewrite Z2Pos.id by exact Hs.
  rewrite <- Z.ltb_antisym.
  match goal with
  | |- (?a <? ?b)%Z = (?c <? ?d)%Z =>
      destruct (Z.ltb_spec a b), (Z.ltb_spec c d); auto; lia
  end.
Qed.

Lemma Qgtb_Qdiv (w s z : Z) :
  (0 < s)%Z ->
  Qgtb (Qdiv (inject_Z w) (inject_Z s)) (inject_Z z) = (z * s <? w)%Z.
Proof.
  intros Hs. destruct s as [|p|p]; try lia.
  unfold Qgtb, Qle_bool, Qdiv, Qmult, Qinv, inject_Z. simpl.
  rewrite <- Z.ltb_antisym.
  match goal with
  | |- (?a <? ?b)%Z = (?c <? ?d)%Z =>
      destruct (Z.ltb_spec a b), (Z.ltb_spec c d); auto; lia
  end.
Qed.

(** C2.  [_assess_complexity] depends on the text only through its word
    count and its sentence count (the number of pieces cut at periods,
    never zero), by the thresholds of the specification: high when the
    average sentence length exceeds 25 or the word count exceeds 5000,
    else medium when the average exceeds 15 or the count exceeds 2000,
    else low; 6000 words in 10 sentences is high, 1000 in 50 medium, 100
    in 20 low. *)
Theorem assess_complexity_by_counts :
  (forall content,
      0 < length (Py.split (txt ".") content) /\
      _assess_complexity content =
      complexity_of_counts (length (Py.split_ws content))
                           (length (Py.split (txt ".") content))) /\
  (forall wc sc,
      0 < sc ->
      complexity_of_counts wc sc =
      if (25 * sc <? wc) || (5000 <? wc) then "high"
      else if (15 * sc <? wc) || (2000 <? wc) then "medium"
      else "low") /\
  complexity_of_counts 6000 10 = "high" /\
  complexity_of_counts 1000 50 = "medium" /\
  complexity_of_counts 100 20 = "low".
Proof.
  assert (Hnat : forall z wc sc, 0 < sc ->
             (Z.of_nat z * Z.of_nat sc <? Z.of_nat wc)%Z = (z * sc <? wc)).
  { intros z wc sc Hsc.
    destruct (Z.ltb_spec (Z.of_nat z * Z.of_nat sc) (Z.of_nat wc)),
             (Nat.ltb_spec (z * sc) wc); auto; lia. }
  split; [|split; [|repeat split; vm_compute; reflexivity]].
  - intros content. unfold _assess_complexity, complexity_of_counts, Py.split.
    pose proof (split_go_nonempty (txt ".") content [] 0) as Hne.
    destruct (Py.split_go (txt ".") [] 0 content) as [|s0 ss] eqn:Hsplit;
      [congruence|].
    split; [simpl; lia|].
    set (wc := length (Py.split_ws content)).
    set (sc := length (s0 :: ss)).
    assert (Hsc : (0 < Z.of_nat sc)%Z) by (subst sc; simpl; lia).
    change 25%Q with (inject_Z 25). change 15%Q with (inject_Z 15).
    now rewrite !Qgtb_true_div, !Qgtb_Qdiv by exact Hsc.
  - intros wc sc Hsc. unfold complexity_of_counts.
    assert (Hz : (0 < Z.of_nat sc)%Z) by lia.
    change 25%Q with (inject_Z (Z.of_nat 25)).
    change 15%Q with (inject_Z (Z.of_nat 15)).
    rewrite !Qgtb_Qdiv by exact Hz.
    now rewrite !Hnat by exact Hsc.
Qed.

(** A text with 100 words in 20 sentences, classified by the code. *)
Example assess_complexity_low :
  let content := concat (repeat (txt "a b c d e. ") 19) ++ txt "a b c d e" in
  length (Py.split_ws content) = 100 /\
  length (Py.split (txt ".") content) = 20 /\
  _assess_complexity content = "low".
Proof. vm_compute. auto. Qed.

(** A text with 1000 words in 50 sentences. *)
Example assess_complexity_medium :
  let sentence := concat (repeat (txt "w ") 19) ++ txt "w." in
  let content := concat (repeat (sentence ++ txt " ") 49) ++ concat (repeat (txt "w ") 20) in
  length (Py.split_ws content) = 1000 /\
  length (Py.split (txt ".") content) = 50 /\
  _assess_complexity content = "medium".
Proof. vm_compute. auto. Qed.

(** A text with 6000 words in 10 sentences. *)
Example assess_complexity_high :
  let content := concat (repeat (txt "w. ") 9) ++ concat (repeat (txt "w ") 5991) in
  length (Py.split_ws content) = 6000 /\
  length (Py.split (txt ".") content) = 10 /\
  _assess_complexity content = "high".
Proof. vm_compute. auto. Qed.

(** ** Pair synthesis *)

Lemma flat_map_if {A B} (c : A -> bool) (f : A -> B) (l : list A) :
  flat_map (fun x => if c x then [f x] else []) l = map f (List.filter c l).
Proof.
  induction l as [|x l IH]; simpl; [reflexivity|].
  destruct (c x); simpl; now rewrite IH.
Qed.

Lemma extract_sample_clauses_spec content :
  _extract_sample_clauses content =
  firstn 5 (map Py.strip (List.filter candidate (Py.split [nl; nl] content))).
Proof.
  unfold _extract_sample_clauses. f_equal.
  exact (flat_map_if candidate Py.strip _).
Qed.

(** C9 (as amended).  For every document the synthesizer yields exactly
    two pairs for [summarization], exactly three for [qa], and for
    [clause_explanation] one pair for each of the first three candidate
    paragraphs, in order, quoting the stripped paragraph; a candidate is
    a paragraph (a piece between double newlines) of 11 to 99 words. *)
Theorem generate_pairs_shape document :
  let candidates :=
    List.filter candidate (Py.split [nl; nl] (content document)) in
  length (_generate_pairs_for_type document "summarization") = 2 /\
  length (_generate_pairs_for_type document "qa") = 3 /\
  (forall para,
      candidate para = true <->
      11 <= length (Py.split_ws para) <= 99) /\
  length (_generate_pairs_for_type document "clause_explanation")
    = Nat.min 3 (length candidates) /\
  map pd_prompt (_generate_pairs_for_type document "clause_explanation")
    = map (fun para => txt "Explain this legal clause in simple terms:"
                       ++ [nl; nl] ++ [dquote] ++ Py.strip para ++ [dquote])
          (firstn 3 candidates).
Proof.
  intros candidates.
  assert (Hclauses :
            firstn 3 (_extract_sample_clauses (content document))
            = map Py.strip (firstn 3 candidates)).
  { rewrite extract_sample_clauses_spec, firstn_firstn. simpl Nat.min.
    now rewrite firstn_map. }
  repeat split.
  - unfold candidate in H. apply andb_true_iff in H. destruct H as [H _].
    apply Nat.ltb_lt in H. lia.
  - unfold candidate in H. apply andb_true_iff in H. destruct H as [_ H].
    apply Nat.ltb_lt in H. lia.
  - intros [H1 H2]. unfold candidate. apply andb_true_iff.
    split; apply Nat.ltb_lt; lia.
  - change (_generate_pairs_for_type document "clause_explanation")
      with (map (fun clause =>
                   {| pd_prompt := txt "Explain this legal clause in simple terms:"
                                   ++ [nl; nl] ++ [dquote] ++ clause ++ [dquote];
                      pd_response := txt "This clause means that...";
                      pd_quality_score := 4;
                      pd_difficulty := "medium";
                      pd_tags := Some ["clause_explanation"; document_type document] |})
                (firstn 3 (_extract_sample_clauses (content document)))).
    rewrite Hclauses, !length_map, length_firstn. reflexivity.
  - change (_generate_pairs_for_type document "clause_explanation")
      with (map (fun clause =>
                   {| pd_prompt := txt "Explain this legal clause in simple terms:"
                                   ++ [nl; nl] ++ [dquote] ++ clause ++ [dquote];
                      pd_response := txt "This clause means that...";
                      pd_quality_score := 4;
                      pd_difficulty := "medium";
                      pd_tags := Some ["clause_explanation"; document_type document] |})
                (firstn 3 (_extract_sample_clauses (content document)))).
    rewrite Hclauses, !map_map. reflexivity.
Qed.

(** C9 as stated fails at the lower bound: a document whose only
    paragraph has exactly ten words has a candidate in the sense of the
    specification, and the synthesizer yields no pair for it. *)
Lemma ten_word_paragraph_yields_no_pair :
  let para := txt "one two three four five six seven eight nine ten" in
  let document :=
    {| title := txt "Lease"; content := para; document_type := "contract";
       language := "en"; domains := None; is_anonymized := false |} in
  Py.split [nl; nl] (content document) = [para] /\
  length (Py.split_ws para) = 10 /\
  spec_candidate para = true /\
  _generate_pairs_for_type document "clause_explanation" = [].
Proof. vm_compute. auto. Qed.

(** ** The store client *)

Lemma store_call_succeeds n what w :
  calls_succeed (S n) w ->
  store_call what w = (Return tt, set_faults (tl (faults w)) w) /\
  calls_succeed n (set_faults (tl (faults w)) w).
Proof.
  unfold calls_succeed, store_call.
  destruct (faults w) as [|f rest] eqn:Hf; simpl.
  - intros _. split; [reflexivity|]. destruct n; constructor.
  - intros H. inversion H as [|? ? Hhead Hrest]; subst.
    split; [reflexivity | exact Hrest].
Qed.

(** Case analysis on a fault list whose first answers are successes. *)
Ltac split_faults H :=
  unfold calls_succeed in H; simpl in H;
  repeat match goal with
         | H : Forall _ (firstn _ ?fs) |- _ =>
             destruct fs as [|[?|] ?]; simpl in H
         | H : Forall _ (_ :: _) |- _ =>
             let x := fresh in
             let l := fresh in
             let H1 := fresh in
             let H2 := fresh in
             inversion H as [|x l H1 H2]; subst; clear H; try discriminate
         end.

(** ** Metrics *)

Lemma calculate_dataset_metrics_returns w :
  calls_succeed 3 w ->
  exists m w',
    calculate_dataset_metrics w = (Return m, w') /\
    dataset_metrics w' = dataset_metrics w ++ [m] /\
    average_quality_score m =
      (if length (prompt_response_pairs w) =? 0 then 0%Q
       else true_div (sum_Z (map quality_score (prompt_response_pairs w)))
                     (Z.of_nat (length (prompt_response_pairs w)))) /\
    quality_distribution m =
      fold_left (fun d pair => bump (Py.str_int (quality_score pair)) d)
                (prompt_response_pairs w) ∅ /\
    verification_rate m =
      (if 0 <? length (prompt_response_pairs w)
       then (true_div (Z.of_nat (length (List.filter is_verified (prompt_response_pairs w))))
                      (Z.of_nat (length (prompt_response_pairs w))) * 100)%Q
       else 0%Q).
Proof.
  intros H. destruct w as [docs pairs dm jobs tm vr ts fs cl us].
  split_faults H; destruct cl; cbn; eauto 10.
Qed.

(** C3.  When the store answers its three calls,
    [calculate_dataset_metrics] returns a snapshot (and stores it).  With
    no pair stored its [verification_rate] and [average_quality_score]
    are 0; with four pairs of quality scores 1, 3, 3, 5 its
    [average_quality_score] is 3 and its [quality_distribution] is
    [{"1": 1, "3": 2, "5": 1}], keyed by [str(score)]. *)
Theorem dataset_metrics_cases w :
  calls_succeed 3 w ->
  exists m w',
    calculate_dataset_metrics w = (Return m, w') /\
    (prompt_response_pairs w = [] ->
     verification_rate m = 0%Q /\ average_quality_score m = 0%Q) /\
    (map quality_score (prompt_response_pairs w) = [1; 3; 3; 5]%Z ->
     (average_quality_score m == 3)%Q /\
     quality_distribution m = {[ "1" := 1; "3" := 2; "5" := 1 ]}).
Proof.
  intros H.
  destruct (calculate_dataset_metrics_returns w H)
    as (m & w' & E & _ & Hq & Hd & Hv).
  exists m, w'. split; [exact E|]. split.
  - intros Hnil. rewrite Hq, Hv, Hnil. split; reflexivity.
  - intros Hs. rewrite Hq, Hd.
    destruct (prompt_response_pairs w) as [|p1 [|p2 [|p3 [|p4 [|p5 ps]]]]];
      try discriminate.
    injection Hs as H1 H2 H3 H4. cbn [fold_left map length].
    rewrite H1, H2, H3, H4. split; reflexivity.
Qed.

Lemma dataset_metrics_cases_witness :
  exists m w',
    calculate_dataset_metrics four_pairs_world = (Return m, w') /\
    (average_quality_score m == 3)%Q /\
    quality_distribution m = {[ "1" := 1; "3" := 2; "5" := 1 ]}.
Proof.
  destruct (dataset_metrics_cases four_pairs_world) as (m & w' & E & _ & H).
  - unfold calls_succeed. simpl. constructor.
  - exists m, w'. split; [exact E|]. apply H. reflexivity.
Defined.

(** The empty store. *)
Example dataset_metrics_empty :
  exists m w',
    calculate_dataset_metrics empty_world = (Return m, w') /\
    verification_rate m = 0%Q /\ average_quality_score m = 0%Q.
Proof.
  destruct (calculate_dataset_metrics_returns empty_world)
    as (m & w' & E & _ & Hq & _ & Hv).
  - unfold calls_succeed. simpl. constructor.
  - exists m, w'. split; [exact E|]. now rewrite Hq, Hv.
Qed.

(** ** Export *)

Lemma filter_filter {A} (f g : A -> bool) (l : list A) :
  List.filter f (List.filter g l) = List.filter (fun x => g x && f x) l.
Proof.
  induction l as [|x l IH]; simpl; [reflexivity|].
  destruct (g x); simpl; [|exact IH]. destruct (f x); now rewrite IH.
Qed.

Lemma filter_true {A} (l : list A) : List.filter (fun _ => true) l = l.
Proof. induction l; simpl; congruence. Qed.

Lemma filter_ext' {A} (f g : A -> bool) (l : list A) :
  (forall x, f x = g x) -> List.filter f l = List.filter g l.
Proof. intros H. induction l as [|x l IH]; simpl; [reflexivity|]. now rewrite H, IH. Qed.


Lemma selected_filters (pair_types : option (list string)) (min_quality : Z)
      (verified_only : bool) (all_pairs : list PromptResponsePair) :
  (let filtered_pairs := all_pairs in
   let filtered_pairs :=
     match pair_types with
     | Some (t :: ts) =>
         List.filter (fun p => bool_decide (pair_type p ∈ t :: ts)) filtered_pairs
     | _ => filtered_pairs
     end in
   let filtered_pairs :=
     if (min_quality =? 0)%Z then filtered_pairs
     else List.filter (fun p => (min_quality <=? quality_score p)%Z) filtered_pairs in
   if verified_only then List.filter is_verified filtered_pairs
   else filtered_pairs) =
  List.filter (selected pair_types min_quality verified_only) all_pairs.
Proof.
  cbv zeta.
  set (A := fun p : PromptResponsePair =>
              match pair_types with
              | Some (t :: ts) => bool_decide (pair_type p ∈ t :: ts)
              | _ => true
              end).
  set (B := fun p : PromptResponsePair =>
              (min_quality =? 0)%Z || (min_quality <=? quality_score p)%Z).
  set (C := fun p : PromptResponsePair => negb verified_only || is_verified p).
  assert (H1 : match pair_types with
               | Some (t :: ts) =>
                   List.filter (fun p => bool_decide (pair_type p ∈ t :: ts)) all_pairs
               | _ => all_pairs
               end = List.filter A all_pairs).
  { subst A. destruct pair_types as [[|t ts]|];
      [symmetry; apply filter_true | reflexivity | symmetry; apply filter_true]. }
  assert (H2 : forall l,
             (if (min_quality =? 0)%Z then l
              else List.filter (fun p => (min_quality <=? quality_score p)%Z) l)
             = List.filter B l).
  { intros l. subst B. destruct (min_quality =? 0)%Z;
      [symmetry; apply filter_true | reflexivity]. }
  assert (H3 : forall l,
             (if verified_only then List.filter is_verified l else l)
             = List.filter C l).
  { intros l. subst C. destruct verified_only;
      [reflexivity | symmetry; apply filter_true]. }
  rewrite H3, H2, H1, !filter_filter.
  apply filter_ext'. intros x. unfold selected. subst A B C. cbv beta.
  now rewrite andb_assoc.
Qed.

Lemma export_dataset_returns w format pair_types min_quality verified_only :
  calls_succeed 1 w ->
  fst (export_dataset format pair_types min_quality verified_only w) =
  let chosen := List.filter (selected pair_types min_quality verified_only) (prompt_response_pairs w) in
  if String.eqb format "jsonl" then Return (join_lines (map json_line chosen))
  else if String.eqb format "csv" then Return (writerow csv_header ++ flat_map (fun p => writerow (csv_row p)) chosen)
  else Raise (ValueError (txt "Unsupported format: " ++ txt format)).
Proof.
  intros H. cbv zeta. rewrite <- selected_filters.
  destruct w as [docs pairs dm jobs tm vr ts fs cl us].
  unfold export_dataset.
  split_faults H; cbn -[String.eqb];
  destruct (String.eqb format "jsonl"); try reflexivity;
  destruct (String.eqb format "csv"); reflexivity.
Qed.

Lemma uint_digits d c :
  List.In c (list_ascii_of_string (NilEmpty.string_of_uint d)) -> Py.isdigit c = true.
Proof.
  induction d; simpl; try tauto; (intros [<-|H]; [reflexivity | auto]).
Qed.

Lemma str_int_chars z c :
  List.In c (txt (Py.str_int z)) -> c <> nl.
Proof.
  unfold txt, Py.str_int, NilZero.string_of_int, NilZero.string_of_uint.
  intros H Hc. subst c.
  destruct (Z.to_int z) as [d|d]; destruct d; simpl in H;
    repeat (destruct H as [H|H]; [discriminate H|]);
    try (apply uint_digits in H; discriminate H); try destruct H.
Qed.

Lemma json_escape_no_newline c : ~ List.In nl (json_escape c).
Proof.
  assert (H : forallb (fun c => negb (existsb (Ascii.eqb nl) (json_escape c))) all_ascii = true)
    by (vm_compute; reflexivity).
  rewrite forallb_forall in H. specialize (H c (all_ascii_complete c)).
  intros Hin. apply negb_true_iff in H.
  assert (existsb (Ascii.eqb nl) (json_escape c) = true).
  { apply existsb_exists. exists nl. split; [exact Hin | apply Ascii.eqb_refl]. }
  congruence.
Qed.

Lemma json_str_no_newline s : ~ List.In nl (json_str s).
Proof.
  unfold json_str. rewrite !in_app_iff, in_flat_map.
  intros [[H|[]]|[(c & _ & H)|[H|[]]]]; try discriminate H.
  now apply json_escape_no_newline in H.
Qed.

Lemma json_line_no_newline p : ~ List.In nl (json_line p).
Proof.
  unfold json_line. rewrite !in_app_iff.
  assert (Hopt : forall o, ~ List.In nl (json_opt_str o)).
  { intros [s|]; [apply json_str_no_newline|].
    simpl. intros H. repeat (destruct H as [H|H]; [discriminate H|]). destruct H. }
  intros H.
  repeat match type of H with
         | _ \/ _ => destruct H as [H|H]
         end;
    try (apply json_str_no_newline in H; exact H);
    try (apply Hopt in H; exact H);
    try (apply str_int_chars in H; congruence);
    simpl in H; repeat (destruct H as [H|H]; [discriminate H|]); destruct H.
Qed.

Lemma split_go_line (l : text) :
  forall cur rest,
    ~ List.In nl l ->
    Py.split_go [nl] cur 0 (l ++ rest) = Py.split_go [nl] (rev l ++ cur) 0 rest.
Proof.
  induction l as [|c l IH]; intros cur rest Hnl; [reflexivity|].
  cbn [Py.split_go app starts_with].
  destruct (Ascii.eqb_spec nl c) as [Heq|Hc].
  - exfalso. apply Hnl. left. now symmetry.
  - cbn [andb]. rewrite IH by (intros H; apply Hnl; now right).
    cbn [rev]. now rewrite <- app_assoc.
Qed.

(** Splitting the joined lines at newlines gives the lines back. *)
Lemma split_join_lines (ls : list text) :
  ls <> [] ->
  (forall l, List.In l ls -> ~ List.In nl l) ->
  Py.split [nl] (join_lines ls) = ls.
Proof.
  unfold Py.split. induction ls as [|l ls IH]; intros Hne Hnl; [congruence|].
  destruct ls as [|l2 ls].
  - simpl. rewrite <- (app_nil_r l) at 1.
    rewrite split_go_line by (apply Hnl; now left).
    simpl. now rewrite app_nil_r, rev_involutive.
  - change (join_lines (l :: l2 :: ls)) with (l ++ nl :: join_lines (l2 :: ls)).
    rewrite split_go_line by (apply Hnl; now left).
    rewrite app_nil_r.
    change (Py.split_go [nl] (rev l) 0 (nl :: join_lines (l2 :: ls)))
      with (if starts_with [nl] (nl :: join_lines (l2 :: ls))
            then rev (rev l) :: Py.split_go [nl] [] 0 (join_lines (l2 :: ls))
            else Py.split_go [nl] (nl :: rev l) 0 (join_lines (l2 :: ls))).
    cbn [starts_with]. rewrite Ascii.eqb_refl. cbn [andb].
    rewrite rev_involutive, IH; [reflexivity | discriminate |].
    intros l' Hl'. apply Hnl. now right.
Qed.

(** C8 (as amended).  When the store answers, [export_dataset] outputs
    exactly the stored pairs that pass all three filters, in stored
    order: the pair type is in the inclusion list (a missing or empty
    list filters nothing), the quality score is at least the threshold
    (inclusive; a threshold of 0 filters nothing), and the pair is
    verified when [verified_only] is set.  In the [jsonl] format the
    output is one JSON object per selected pair with the keys prompt,
    response, type, quality, domain, difficulty, joined by newlines,
    and no object holds a newline; in the [csv] format it is the header
    row [prompt,response,type,quality,domain,difficulty] followed by one
    row per selected pair in the same field order. *)
Theorem export_dataset_selects w pair_types min_quality verified_only :
  calls_succeed 1 w ->
  let chosen :=
    List.filter (selected pair_types min_quality verified_only)
                (prompt_response_pairs w) in
  fst (export_dataset "jsonl" pair_types min_quality verified_only w)
    = Return (join_lines (map json_line chosen)) /\
  (chosen <> [] ->
   Py.split [nl] (join_lines (map json_line chosen)) = map json_line chosen) /\
  fst (export_dataset "csv" pair_types min_quality verified_only w)
    = Return (writerow csv_header
              ++ flat_map (fun p => writerow (csv_row p)) chosen) /\
  writerow csv_header
    = txt "prompt,response,type,quality,domain,difficulty" ++ [cr; nl] /\
  (forall p,
      selected pair_types min_quality verified_only p = true <->
      match pair_types with
      | Some (t :: ts) => pair_type p ∈ t :: ts
      | _ => True
      end /\
      (min_quality = 0 \/ min_quality <= quality_score p)%Z /\
      (verified_only = true -> is_verified p = true)).
Proof.
  intros H chosen. repeat split.
  - now rewrite export_dataset_returns.
  - intros Hne. apply split_join_lines.
    + destruct chosen; [congruence | discriminate].
    + intros l Hl. apply in_map_iff in Hl. destruct Hl as (p & <- & _).
      apply json_line_no_newline.
  - now rewrite export_dataset_returns.
  - unfold selected in H0. rewrite !andb_true_iff in H0.
    destruct H0 as [[HA _] _]. destruct pair_types as [[|t ts]|]; auto.
    now apply bool_decide_eq_true in HA.
  - unfold selected in H0. rewrite !andb_true_iff, orb_true_iff in H0.
    destruct H0 as [[_ [HB|HB]] _]; [left; lia | right; lia].
  - unfold selected in H0. rewrite !andb_true_iff in H0.
    destruct H0 as [_ HC]. intros ->. exact HC.
  - intros (HA & HB & HC). unfold selected. rewrite !andb_true_iff. repeat split.
    + destruct pair_types as [[|t ts]|]; auto. now apply bool_decide_eq_true.
    + apply orb_true_iff. destruct HB; [left | right]; lia.
    + destruct verified_only; [now apply HC | reflexivity].
Qed.

Lemma export_dataset_selects_witness :
  fst (export_dataset "jsonl" (Some ["qa"]) 3 true four_pairs_world)
    = Return (join_lines (map json_line [sample_pair "qa" 3 true;
                                         sample_pair "qa" 5 true])) /\
  fst (export_dataset "csv" (Some ["qa"]) 3 true four_pairs_world)
    = Return (writerow csv_header
              ++ flat_map (fun p => writerow (csv_row p))
                   [sample_pair "qa" 3 true; sample_pair "qa" 5 true]).
Proof.
  destruct (export_dataset_selects four_pairs_world (Some ["qa"]) 3 true)
    as (Hj & _ & Hc & _).
  - unfold calls_succeed. simpl. constructor.
  - split; [exact Hj | exact Hc].
Defined.

(** C8 as stated fails for an empty inclusion list: no pair type is in
    it, and the export still outputs every pair that passes the other
    two filters. *)
Lemma export_empty_type_list_filters_nothing :
  let p := sample_pair "qa" 4 true in
  let w := set_prompt_response_pairs [p] empty_world in
  spec_selected (Some []) 3 false p = false /\
  fst (export_dataset "jsonl" (Some []) 3 false w) = Return (json_line p).
Proof. split; reflexivity. Qed.

(** ** Evaluation *)






(** ** Frames: what an action leaves alone *)




Section Frames.
Variable id : string.


Lemma frames_ret {A} (a : A) : frames id (ret a).
Proof. intros w. split; reflexivity. Qed.

Lemma frames_raise {A} (e : exn) : frames id (raise (A:=A) e).
Proof. intros w. split; reflexivity. Qed.

Lemma frames_gets {A} (f : World -> A) : frames id (gets f).
Proof. intros w. split; reflexivity. Qed.

Lemma frames_bind {A B} (m : M A) (f : A -> M B) :
  frames id m -> (forall a, frames id (f a)) -> frames id (bind m f).
Proof.
  intros Hm Hf w. unfold bind. specialize (Hm w).
  destruct (m w) as [[a|e] w1]; simpl in *; [|exact Hm].
  destruct (Hf a w1) as [T J]. destruct Hm as [T1 J1]. split; congruence.
Qed.


Lemma frames_try_except {A} (m : M A) (h : exn -> M A) :
  frames id m -> (forall e, frames id (h e)) -> frames id (try_except m h).
Proof.
  intros Hm Hh w. unfold try_except. specialize (Hm w).
  destruct (m w) as [[a|e] w1]; simpl in *; [exact Hm|].
  destruct (Hh e w1) as [T J]. destruct Hm as [T1 J1]. split; congruence.
Qed.

Lemma frames_store_call what : frames id (store_call what).
Proof.
  intros w. unfold store_call. destruct (faults w) as [|[msg|] rest];
    split; reflexivity.
Qed.

Lemma frames_utcnow : frames id utcnow.
Proof. intros w. unfold utcnow. destruct (clock w); split; reflexivity. Qed.

Lemma frames_uuid4 : frames id uuid4.
Proof. intros w. unfold uuid4. destruct (uuids w); split; reflexivity. Qed.

Lemma frames_select_job id' : frames id (select_job id').
Proof.
  unfold select_job. apply frames_bind; [apply frames_store_call|].
  intros _. apply frames_gets.
Qed.

Lemma frames_update_job data id' : id' <> id -> frames id (update_job data id').
Proof.
  intros Hne. unfold update_job. apply frames_bind; [apply frames_store_call|].
  intros _ w. split; [reflexivity|]. simpl. now apply lookup_alter_ne.
Qed.


Lemma frames_insert_training_metrics row :
  frames id (insert_row training_metrics set_training_metrics row).
Proof.
  unfold insert_row. apply frames_bind; [apply frames_store_call|].
  intros _ w. split; reflexivity.
Qed.

Lemma frames_insert_validation_results row :
  frames id (insert_row validation_results set_validation_results row).
Proof.
  unfold insert_row. apply frames_bind; [apply frames_store_call|].
  intros _ w. split; reflexivity.
Qed.

(** Coroutines built from actions with a property keep it segment by
    segment. *)
Lemma Forall_then_co (P : M unit -> Prop) (a b : coroutine) :
  (forall m n, P m -> P n -> P (bind m (fun _ => n))) ->
  Forall P a -> Forall P b -> Forall P (then_co a b).
Proof.
  intros Hbind Ha Hb. induction Ha as [|m a Hm Ha IH]; [exact Hb|].
  destruct a as [|m2 a].
  - simpl. destruct Hb as [|n b Hn Hb]; constructor; auto.
  - change (then_co (m :: m2 :: a) b) with (m :: then_co (m2 :: a) b).
    constructor; auto.
Qed.

Lemma Forall_for_each {X} (P : M unit -> Prop) (xs : list X) (body : X -> coroutine) :
  (forall m n, P m -> P n -> P (bind m (fun _ => n))) ->
  P (ret tt) ->
  (forall x, Forall P (body x)) ->
  Forall P (for_each xs body).
Proof.
  intros Hbind Hret Hbody. unfold for_each.
  induction xs as [|x xs IH]; simpl.
  - repeat constructor. exact Hret.
  - apply Forall_then_co; auto.
Qed.

End Frames.

Ltac frames_tac :=
  repeat first
    [ apply frames_ret
    | apply frames_raise
    | apply frames_gets
    | apply frames_store_call
    | apply frames_utcnow
    | apply frames_uuid4
    | apply frames_select_job
    | apply frames_update_job; congruence
    | apply frames_insert_training_metrics
    | apply frames_insert_validation_results
    | apply frames_bind; [|intros ?; cbv beta zeta] ].

Lemma frames_seq id (m n : M unit) :
  frames id m -> frames id n -> frames id (bind m (fun _ => n)).
Proof. intros Hm Hn. apply frames_bind; auto. Qed.


Lemma sleep_frames id : Forall (frames id) sleep.
Proof. repeat constructor. Qed.

Lemma validation_frames hash id id' : Forall (frames id) (_run_validation_tests hash id').
Proof.
  unfold _run_validation_tests.
  apply Forall_for_each; [apply frames_seq | apply frames_ret |].
  intros test. apply Forall_then_co; [apply frames_seq | apply sleep_frames |].
  constructor; [|constructor]. cbv zeta. frames_tac.
Qed.

Lemma evaluate_model_frames hash id id' : frames id (_evaluate_model hash id').
Proof. unfold _evaluate_model. cbv zeta. frames_tac. Qed.

Lemma atomic_Forall (P : M unit -> Prop) (m : M unit) :
  P m -> Forall P (atomic m).
Proof. intros H. constructor; [exact H | constructor]. Qed.



(** ** Segments that cannot end a job *)







(** ** Steps of the event loop *)











(** ** Logs *)



Lemma frames_appends id {A} (m : M A) : frames id m -> appends id m.
Proof.
  intros H w j Hj. destruct (H w) as [_ E]. exists j. rewrite E.
  split; [exact Hj|]. exists []. now rewrite app_nil_r.
Qed.

Lemma appends_bind id {A B} (m : M A) (f : A -> M B) :
  appends id m -> (forall a, appends id (f a)) -> appends id (bind m f).
Proof.
  intros Hm Hf w j Hj. unfold bind. destruct (Hm w j Hj) as (j1 & Hj1 & s1 & E1).
  destruct (m w) as [[a|e] w1]; simpl in *.
  - destruct (Hf a w1 j1 Hj1) as (j2 & Hj2 & s2 & E2).
    exists j2. split; [exact Hj2|]. exists (s1 ++ s2).
    now rewrite E2, E1, app_assoc.
  - eauto.
Qed.

Lemma appends_seq id (m n : M unit) :
  appends id m -> appends id n -> appends id (bind m (fun _ => n)).
Proof. intros Hm Hn. apply appends_bind; auto. Qed.


Lemma update_logs_appends id id' (cur line : text) (g : FineTuningJob -> FineTuningJob) w j :
  (forall j0, fine_tuning_jobs w !! id' = Some j0 -> cur = logs j0) ->
  fine_tuning_jobs w !! id = Some j ->
  exists j',
    fine_tuning_jobs (snd (update_job (fun j0 => with_logs (cur ++ line) (g j0)) id' w)) !! id = Some j' /\
    exists suffix, logs j' = logs j ++ suffix.
Proof.
  intros Hcur Hj. unfold update_job, bind, store_call, modify.
  assert (Hsame : exists j', fine_tuning_jobs w !! id = Some j' /\
                     exists suffix, logs j' = logs j ++ suffix).
  { exists j. split; [exact Hj|]. exists []. now rewrite app_nil_r. }
  cbv beta.
  destruct (faults w) as [|[msg|] fs]; cbn; try exact Hsame;
    (destruct (decide (id' = id)) as [->|Hne];
     [ rewrite lookup_alter_eq, Hj; cbn; eexists; split; [reflexivity|];
       cbn; exists line; now rewrite (Hcur j Hj)
     | rewrite lookup_alter_ne by exact Hne; exact Hsame ]).
Qed.


Lemma logs_writer_update id id' cur line g :
  logs_writer id id' cur
    (update_job (fun j0 => with_logs (cur ++ line) (g j0)) id').
Proof. intros w j Hcur Hj. now apply update_logs_appends. Qed.

Lemma logs_writer_raise id id' cur {A} e : logs_writer id id' cur (raise (A:=A) e).
Proof.
  intros w j _ Hj. exists j. split; [exact Hj|]. exists []. now rewrite app_nil_r.
Qed.

Lemma logs_writer_utcnow id id' cur {A} (f : datetime -> M A) :
  (forall now, logs_writer id id' cur (f now)) ->
  logs_writer id id' cur (now <- utcnow ;; f now).
Proof.
  intros Hf w j Hcur Hj. unfold bind, utcnow. cbv beta.
  destruct (clock w) as [|t cl]; cbn; apply Hf; auto.
Qed.

Lemma logs_writer_then id id' cur {A B} (m : M A) (f : A -> M B) :
  logs_writer id id' cur m -> (forall a, frames id (f a)) ->
  logs_writer id id' cur (bind m f).
Proof.
  intros Hm Hf w j Hcur Hj. unfold bind.
  destruct (Hm w j Hcur Hj) as (j1 & Hj1 & Hs).
  destruct (m w) as [[a|e] w1]; simpl in *; [|eauto].
  destruct (Hf a w1) as [_ J]. rewrite J. eauto.
Qed.

Lemma appends_select_then id id' {A} (rest : list FineTuningJob -> M A) :
  (forall jobs, logs_writer id id' (current_logs_of jobs) (rest jobs)) ->
  appends id (jobs <- select_job id' ;; rest jobs).
Proof.
  intros Hrest w j Hj. unfold select_job, bind, gets, store_call. cbv beta.
  assert (Hgo : forall w1,
             fine_tuning_jobs w1 = fine_tuning_jobs w ->
             exists j',
               fine_tuning_jobs
                 (snd (rest (match fine_tuning_jobs w !! id' with
                             | Some j0 => [j0] | None => [] end) w1)) !! id = Some j' /\
               exists suffix, logs j' = logs j ++ suffix).
  { intros w1 E. apply Hrest; rewrite E; [|exact Hj].
    intros j0 ->. reflexivity. }
  destruct (faults w) as [|[msg|] fs]; cbn.
  - now apply Hgo.
  - exists j. split; [exact Hj|]. exists []. now rewrite app_nil_r.
  - now apply Hgo.
Qed.

Lemma training_body_appends hash id id' :
  Forall (appends id (A:=unit)) (training_body hash id').
Proof.
  assert (Hsleep : Forall (appends id (A:=unit)) sleep).
  { repeat constructor; apply frames_appends, frames_ret. }
  unfold training_body.
  apply Forall_then_co; [apply appends_seq | |].
  { apply Forall_for_each;
      [apply appends_seq | apply frames_appends, frames_ret |].
    intros [i stage].
    apply Forall_then_co; [apply appends_seq | | exact Hsleep].
    apply atomic_Forall. cbv zeta.
    apply appends_select_then. intros jobs.
    apply logs_writer_utcnow. intros now.
    apply logs_writer_update. }
  apply Forall_then_co; [apply appends_seq | |].
  { apply atomic_Forall. intros w j Hj.
    unfold update_job, bind, store_call, modify. cbv beta.
    assert (Hsame : exists j', fine_tuning_jobs w !! id = Some j' /\
                       exists suffix, logs j' = logs j ++ suffix).
    { exists j. split; [exact Hj|]. exists []. now rewrite app_nil_r. }
    destruct (faults w) as [|[msg|] fs]; cbn; try exact Hsame;
      (destruct (decide (id' = id)) as [->|Hne];
       [ rewrite lookup_alter_eq, Hj; cbn; eexists; split; [reflexivity|];
         cbn; exists []; now rewrite app_nil_r
       | rewrite lookup_alter_ne by exact Hne; exact Hsame ]). }
  apply Forall_then_co; [apply appends_seq | exact Hsleep |].
  apply Forall_then_co; [apply appends_seq | |].
  { apply atomic_Forall, frames_appends.
    apply frames_bind; [apply evaluate_model_frames | intros ?; apply frames_ret]. }
  apply Forall_then_co; [apply appends_seq | |].
  { eapply Forall_impl; [apply validation_frames|].
    intros m Hm. apply frames_appends, Hm. }
  apply atomic_Forall. apply appends_select_then. intros jobs.
  apply logs_writer_utcnow. intros end_now.
  apply logs_writer_utcnow. intros log_now.
  apply logs_writer_update.
Qed.

Lemma training_except_appends id id' e : appends id (training_except id' e).
Proof.
  unfold training_except. apply appends_select_then. intros jobs.
  apply logs_writer_utcnow. intros end_now.
  apply logs_writer_utcnow. intros log_now.
  apply logs_writer_update.
Qed.

Lemma cancel_appends id id' username :
  appends id (cancel_fine_tuning_job id' username).
Proof.
  unfold cancel_fine_tuning_job. apply appends_select_then. intros jobs.
  destruct jobs as [|job jobs]; [apply logs_writer_raise|].
  destruct (negb _); [apply logs_writer_raise|].
  apply logs_writer_utcnow. intros end_now.
  apply logs_writer_utcnow. intros log_now.
  apply logs_writer_then; [|intros ?; apply frames_ret].
  apply (logs_writer_update id id' (logs job)).
Qed.

Lemma tick_appends hash id id' w j :
  fine_tuning_jobs w !! id = Some j ->
  exists j',
    fine_tuning_jobs (tick hash id' w) !! id = Some j' /\
    exists suffix, logs j' = logs j ++ suffix.
Proof.
  intros Hj.
  assert (Hsame : exists j', fine_tuning_jobs w !! id = Some j' /\
                     exists suffix, logs j' = logs j ++ suffix).
  { exists j. split; [exact Hj|]. exists []. now rewrite app_nil_r. }
  unfold tick. destruct (tasks w !! id') as [pc|]; [|exact Hsame].
  destruct (nth_error (training_body hash id') pc) as [segment|] eqn:Hseg;
    [|exact Hsame].
  assert (Ha : appends id segment).
  { pose proof (training_body_appends hash id id') as Hall.
    rewrite Forall_forall in Hall. apply Hall.
    apply list_elem_of_In. eapply nth_error_In, Hseg. }
  destruct (Ha w j Hj) as (j1 & Hj1 & s1 & E1).
  destruct (segment w) as [[u|e] w1]; simpl in *.
  - eauto.
  - destruct (training_except_appends id id' e w1 j1 Hj1) as (j2 & Hj2 & s2 & E2).
    exists j2. split; [exact Hj2|]. exists (s1 ++ s2).
    now rewrite E2, E1, app_assoc.
Qed.

(** Every run of the event loop, cancel requests included, only ever
    extends the logs of a stored job. *)
Theorem logs_only_grow hash evs :
  forall w id j,
    fine_tuning_jobs w !! id = Some j ->
    exists j',
      fine_tuning_jobs (run_events hash evs w) !! id = Some j' /\
      exists suffix, logs j' = logs j ++ suffix.
Proof.
  unfold run_events.
  induction evs as [|ev evs IH]; intros w id j Hj; simpl.
  - exists j. split; [exact Hj|]. exists []. now rewrite app_nil_r.
  - assert (Hstep : exists j1,
               fine_tuning_jobs (step hash ev w) !! id = Some j1 /\
               exists suffix, logs j1 = logs j ++ suffix).
    { destruct ev as [id'|id' username]; simpl.
      - now apply tick_appends.
      - now apply cancel_appends. }
    destruct Hstep as (j1 & Hj1 & s1 & E1).
    destruct (IH _ id j1 Hj1) as (j2 & Hj2 & s2 & E2).
    exists j2. split; [exact Hj2|]. exists (s1 ++ s2).
    now rewrite E2, E1, app_assoc.
Qed.

(** When the store answers the two calls of the [except] block, the job
    becomes [failed], an end time is stamped and the error text is
    appended to the logs just read. *)
Lemma training_except_marks_failed id e w job :
  calls_succeed 2 w ->
  fine_tuning_jobs w !! id = Some job ->
  fst (training_except id e w) = Return tt /\
  fine_tuning_jobs (snd (training_except id e w)) !! id
  = Some (with_logs
            (logs job ++ log_line (hd epoch (tl (clock w)))
                           (txt "Training failed: " ++ str_exn e))
            (with_end_time (Some (isoformat (hd epoch (clock w))))
               (with_status "failed" job))).
Proof.
  intros H Hjob. destruct w as [docs pairs dm jobs tm vr ts fs cl us].
  unfold training_except, select_job, update_job. cbn [fine_tuning_jobs] in *.
  split_faults H; destruct cl as [|t1 [|t2 cl]];
    cbn -[alter]; rewrite Hjob; cbn -[alter];
    (split; [reflexivity|]); rewrite lookup_alter_eq, Hjob; reflexivity.
Qed.

Lemma logs_only_grow_witness :
  exists j',
    fine_tuning_jobs
      (run_events sample_hash
         [Tick "job-1"; Cancel "job-1" (txt "root"); Tick "job-1"]
         started_world) !! "job-1" = Some j' /\
    exists suffix, logs j' = [] ++ suffix.
Proof.
  apply (logs_only_grow sample_hash
           [Tick "job-1"; Cancel "job-1" (txt "root"); Tick "job-1"]
           started_world "job-1"
           (with_start_time (Some (isoformat epoch))
              (with_status "training" fresh_job))).
  vm_compute. reflexivity.
Defined.

Lemma training_except_marks_failed_witness :
  fst (training_except "job-1" (Exception (txt "boom")) started_world) = Return tt /\
  option_map (fun j => (status j, end_time j))
    (fine_tuning_jobs
       (snd (training_except "job-1" (Exception (txt "boom")) started_world))
     !! "job-1")
  = Some ("failed", Some (isoformat epoch)).
Proof.
  destruct (training_except_marks_failed "job-1" (Exception (txt "boom"))
              started_world
              (with_start_time (Some (isoformat epoch))
                 (with_status "training" fresh_job))) as [Hret Hrow].
  - unfold calls_succeed. vm_compute. constructor.
  - vm_compute. reflexivity.
  - split; [exact Hret|]. rewrite Hrow. reflexivity.
Defined.

(** ** The job state machine *)




(** ** Cancellation *)



Lemma cancellable_spec st :
  cancellable st = true <-> st = "preparing" \/ st = "training".
Proof.
  unfold cancellable. rewrite bool_decide_eq_true.
  rewrite !elem_of_cons, elem_of_nil. tauto.
Qed.

Lemma cancel_outcome w job_id username :
  calls_succeed 2 w ->
  match fine_tuning_jobs w !! job_id with
  | None =>
      fst (cancel_fine_tuning_job job_id username w)
        = Raise (HTTPException 404 (txt "Fine-tuning job not found")) /\
      fine_tuning_jobs (snd (cancel_fine_tuning_job job_id username w))
        = fine_tuning_jobs w
  | Some job =>
      if cancellable (status job)
      then
        fst (cancel_fine_tuning_job job_id username w)
          = Return (txt "Job cancelled successfully") /\
        let end_now := hd epoch (clock w) in
        let log_now := hd epoch (tl (clock w)) in
          fine_tuning_jobs (snd (cancel_fine_tuning_job job_id username w)) !! job_id
          = Some (with_logs (logs job ++ nl :: txt "Job cancelled by admin " ++ username
                                  ++ txt " at " ++ str_datetime log_now)
                   (with_end_time (Some (isoformat end_now))
                      (with_status "failed" job)))
      else
        fst (cancel_fine_tuning_job job_id username w)
          = Raise (HTTPException 400 (txt "Job cannot be cancelled in current status")) /\
        fine_tuning_jobs (snd (cancel_fine_tuning_job job_id username w))
          = fine_tuning_jobs w
  end.
Proof.
  intros H. destruct w as [docs pairs dm jobs tm vr ts fs cl us].
  unfold cancel_fine_tuning_job, select_job, update_job, cancellable.
  cbn [fine_tuning_jobs].
  destruct (jobs !! job_id) as [job|] eqn:Hjob.
  - destruct (bool_decide (status job ∈ ["preparing"; "training"])) eqn:Hst.
    + split_faults H; destruct cl as [|t1 [|t2 cl]];
        cbn -[bool_decide alter]; rewrite Hjob; cbn -[bool_decide alter];
        rewrite Hst; cbn -[bool_decide alter];
        (split; [reflexivity|]);
        rewrite lookup_alter_eq, Hjob; reflexivity.
    + split_faults H; 
        cbn -[bool_decide alter]; rewrite Hjob; cbn -[bool_decide alter];
        rewrite Hst; cbn -[bool_decide alter]; split; reflexivity.
  - split_faults H; cbn -[bool_decide alter]; rewrite Hjob; split; reflexivity.
Qed.

(** C6.  When the store answers, the cancel request succeeds exactly
    when the job exists and its status is [preparing] or [training], and
    then the job's status is [failed]; for a job in [evaluating],
    [completed] or [failed] it raises the 400 error and the table of
    jobs is unchanged. *)
Theorem cancel_iff_cancellable w job_id username :
  calls_succeed 2 w ->
  let r := cancel_fine_tuning_job job_id username w in
  ((exists msg, fst r = Return msg) <->
   (exists job,
       fine_tuning_jobs w !! job_id = Some job /\
       (status job = "preparing" \/ status job = "training"))) /\
  ((exists msg, fst r = Return msg) ->
   exists job',
     fine_tuning_jobs (snd r) !! job_id = Some job' /\ status job' = "failed") /\
  (forall job,
      fine_tuning_jobs w !! job_id = Some job ->
      status job = "evaluating" \/ status job = "completed" \/ status job = "failed" ->
      fst r = Raise (HTTPException 400 (txt "Job cannot be cancelled in current status")) /\
      fine_tuning_jobs (snd r) = fine_tuning_jobs w).
Proof.
  intros H r. pose proof (cancel_outcome w job_id username H) as Hout.
  fold r in Hout.
  destruct (fine_tuning_jobs w !! job_id) as [job|] eqn:Hjob.
  - destruct (cancellable (status job)) eqn:Hc.
    + destruct Hout as [Hret Hrow]. apply cancellable_spec in Hc.
      split; [|split].
      * split; eauto.
      * intros _. eexists. split; [exact Hrow | reflexivity].
      * intros job0 [= <-] Hst.
        destruct Hc as [Hc|Hc], Hst as [Hst|[Hst|Hst]]; congruence.
    + destruct Hout as [Hraise Hsame].
      assert (Hno : ~ (status job = "preparing" \/ status job = "training")).
      { rewrite <- cancellable_spec. congruence. }
      split; [|split].
      * split; [intros [msg Hm]; congruence|].
        intros (job0 & [= <-] & Hst). tauto.
      * intros [msg Hm]. congruence.
      * intros job0 _ _. auto.
  - destruct Hout as [Hraise Hsame]. split; [|split].
    + split; [intros [msg Hm]; congruence | intros (job0 & [=] & _)].
    + intros [msg Hm]. congruence.
    + intros job0 [=].
Qed.

Lemma cancel_iff_cancellable_witness :
  (exists msg,
      fst (cancel_fine_tuning_job "job-1" (txt "root") started_world) = Return msg) /\
  exists job',
    fine_tuning_jobs
      (snd (cancel_fine_tuning_job "job-1" (txt "root") started_world)) !! "job-1"
    = Some job' /\ status job' = "failed".
Proof.
  destruct (cancel_iff_cancellable started_world "job-1" (txt "root"))
    as (Hiff & Hfailed & _).
  - unfold calls_succeed. vm_compute. constructor.
  - assert (Hok : exists msg,
               fst (cancel_fine_tuning_job "job-1" (txt "root") started_world)
               = Return msg).
    { apply Hiff. eexists. split; [vm_compute; reflexivity|].
      right. reflexivity. }
    split; [exact Hok | exact (Hfailed Hok)].
Defined.

(** ** Failure while starting *)

(** C5 (the code at the failing input).  [start_training] on a stored
    job whose status update raises: the [except] block sets [failed]
    and re-raises, but stamps no end time and writes the logs anew
    instead of appending, so text already logged is lost. *)
Lemma start_training_failure_replaces_logs :
  let failing := set_faults [None; Some (txt "connection lost")] in
  let logged := with_logs (txt "created by admin") fresh_job in
  let r0 := start_training "job-1" (failing (one_job_world fresh_job)) in
  let r1 := start_training "job-1" (failing (one_job_world logged)) in
  (fst r0 = Raise (Exception (txt "Update failed: connection lost")) /\
   fine_tuning_jobs (snd r0) !! "job-1"
   = Some {| status := "failed"; progress := 0; start_time := None;
             end_time := None; model_id := None;
             logs := txt "Training failed: Update failed: connection lost" |}) /\
  (fst r1 = Raise (Exception (txt "Update failed: connection lost")) /\
   fine_tuning_jobs (snd r1) !! "job-1"
   = Some {| status := "failed"; progress := 0; start_time := None;
             end_time := None; model_id := None;
             logs := txt "Training failed: Update failed: connection lost" |} /\
   ~ (exists suffix,
         txt "Training failed: Update failed: connection lost"
         = logs logged ++ suffix)).
Proof.
  cbv zeta. repeat split; try (vm_compute; reflexivity).
  intros [suffix H]. discriminate H.
Qed.

(** The same failure inside the training task: the [except] block of
    [_run_training_process] stamps the end time and appends. *)
Example training_failure_appends :
  let w := set_faults [None; Some (txt "connection lost")] started_world in
  fine_tuning_jobs (tick sample_hash "job-1" w) !! "job-1"
  = Some {| status := "failed"; progress := 0;
            start_time := Some (isoformat epoch);
            end_time := Some (isoformat epoch); model_id := None;
            logs := nl :: str_datetime epoch
                    ++ txt ": Training failed: Update failed: connection lost" |}.
Proof. vm_compute. reflexivity. Qed.
